(** * Real-time agent tracking: streaming service, reconciliation store,
      snapshot loader and map viewport.

    A shallow embedding of
    - [src/services/WebSocketService.ts] (module [WebSocketService]),
    - [src/components/admin/AgentTracking.tsx] (module [AgentTracking]),
    - the [GoogleMap] component used by the tracking page (module [GoogleMap]),
    followed by the properties of the tracking core.

    Conventions.  JavaScript numbers that carry coordinates or telemetry are
    rationals ([Q]); counters and millisecond delays are integers ([Z]).
    An optional TypeScript field [f?: T] is an [option T], [None] meaning
    that the key is absent from the object.  The wall clock
    ([new Date().toISOString()]) is an explicit argument. *)

From stdpp Require Import base list strings pretty.
From Stdlib Require Import ZArith QArith Lia.

Definition number : Type := Q.

(** [a || b] on strings: the empty string is falsy, as is a missing value. *)
Definition or_default (s : option string) (d : string) : string :=
  match s with
  | Some v => if String.eqb v "" then d else v
  | None => d
  end.

(** Object spread of one optional key: [{...old, ...new}] keeps the key of
    [old] unless [new] has it. *)
Definition spread_key {A : Type} (old new : option A) : option A :=
  match new with
  | Some v => Some v
  | None => old
  end.

Inductive ConnectionStatus : Type := ONLINE | OFFLINE | DISCONNECTED.

(** [status === 'ONLINE'] *)
Definition is_ONLINE (s : ConnectionStatus) : bool :=
  match s with ONLINE => true | _ => false end.

(* ===================================================================== *)
(** ** Event payloads of [WebSocketService.ts] *)
(* ===================================================================== *)

Module AgentLocationUpdate.
Record t : Type := mk {
  agentId : string;
  agentFirstName : string;
  agentLastName : string;
  agentMobile : string;
  lastLocation : string;
  latitude : number;
  longitude : number;
  accuracy : option number;
  connectionStatus : ConnectionStatus;
  lastUpdate : string;
  batteryLevel : option number;
  isCharging : option bool;
  isOnline : bool
}.
End AgentLocationUpdate.

Module ConnectionStatusUpdate.
Record t : Type := mk {
  agentId : string;
  status : ConnectionStatus;
  timestamp : string
}.
End ConnectionStatusUpdate.

(* ===================================================================== *)
(** ** The connection manager of [WebSocketService.ts] *)
(* ===================================================================== *)

Module WebSocketService.

Local Open Scope Z_scope.

(** The part of the stompjs [Client] that the service drives: whether it
    has been activated, and the destinations handed to [subscribe]. *)
Record Client : Type := mkClient {
  active : bool;
  subscriptions : list string
}.

(** The fields of [class WebSocketService] that change, with the token
    held by [localStorage] and the [setTimeout] callbacks that have not run
    yet (the service keeps no handle on them).  A connection listener is
    known by a number. *)
Record t : Type := mk {
  token : option string;
  client : option Client;
  isConnected : bool;
  reconnectAttempts : Z;
  reconnectDelay : Z;
  connectionCallbacks : list nat;
  pendingTimers : list Z
}.

Definition maxReconnectAttempts : Z := 5.
Definition maxReconnectDelay : Z := 30000.

Inductive Effect : Type :=
| Notify (callback : nat) (connected : bool)
| Activate
| Deactivate
| Subscribe (destination : string)
| SetTimeout (delay : Z).

(** Methods read and write the fields and leave a trace of effects. *)
Definition M (A : Type) : Type := t -> A * t * list Effect.

Definition ret {A : Type} (a : A) : M A := fun s => (a, s, []).
Definition bind {A B : Type} (m : M A) (k : A -> M B) : M B :=
  fun s =>
    let '(a, s1, out1) := m s in
    let '(b, s2, out2) := k a s1 in
    (b, s2, out1 ++ out2).
Definition get : M t := fun s => (s, s, []).
Definition modify (f : t -> t) : M unit := fun s => (tt, f s, []).
Definition emit (e : Effect) : M unit := fun s => (tt, s, [e]).

Declare Scope ws_scope.
Delimit Scope ws_scope with ws.
Notation "x <- c ;; k" := (bind c (fun x => k))
  (at level 100, c at next level, right associativity) : ws_scope.
Notation "c ;; k" := (bind c (fun _ => k))
  (at level 100, right associativity) : ws_scope.
Local Open Scope ws_scope.

Definition exec {A : Type} (m : M A) (s : t) : t := snd (fst (m s)).
Definition effects {A : Type} (m : M A) (s : t) : list Effect := snd (m s).

Fixpoint forEach {A : Type} (l : list A) (f : A -> M unit) : M unit :=
  match l with
  | [] => ret tt
  | x :: rest => f x ;; forEach rest f
  end.

Definition set_client (c : option Client) (s : t) : t :=
  mk (token s) c (isConnected s) (reconnectAttempts s) (reconnectDelay s)
     (connectionCallbacks s) (pendingTimers s).
Definition set_isConnected (b : bool) (s : t) : t :=
  mk (token s) (client s) b (reconnectAttempts s) (reconnectDelay s)
     (connectionCallbacks s) (pendingTimers s).
Definition set_reconnectAttempts (n : Z) (s : t) : t :=
  mk (token s) (client s) (isConnected s) n (reconnectDelay s)
     (connectionCallbacks s) (pendingTimers s).
Definition set_reconnectDelay (n : Z) (s : t) : t :=
  mk (token s) (client s) (isConnected s) (reconnectAttempts s) n
     (connectionCallbacks s) (pendingTimers s).
Definition set_connectionCallbacks (l : list nat) (s : t) : t :=
  mk (token s) (client s) (isConnected s) (reconnectAttempts s)
     (reconnectDelay s) l (pendingTimers s).
Definition set_pendingTimers (l : list Z) (s : t) : t :=
  mk (token s) (client s) (isConnected s) (reconnectAttempts s)
     (reconnectDelay s) (connectionCallbacks s) l.

(** [setTimeout(callback, delay)]; every timer of the service has the
    callback [() => { if (!this.isConnected) this.connect() }]. *)
Definition setTimeout (delay : Z) : M unit :=
  modify (fun s => set_pendingTimers (pendingTimers s ++ [delay]) s) ;;
  emit (SetTimeout delay).

(** A listener that throws is caught; it changes nothing here. *)
Definition notifyConnectionCallbacks (connected : bool) : M unit :=
  s <- get ;;
  forEach (connectionCallbacks s) (fun callback => emit (Notify callback connected)).

(** [new Client({...})] when a token is stored, nothing otherwise. *)
Definition setupClient : M unit :=
  s <- get ;;
  match token s with
  | None => ret tt
  | Some _ => modify (set_client (Some (mkClient false [])))
  end.

Definition subscribe (destination : string) : M unit :=
  modify (fun s =>
            match client s with
            | Some c => set_client (Some (mkClient (active c)
                                            (subscriptions c ++ [destination]))) s
            | None => s
            end) ;;
  emit (Subscribe destination).

Definition subscribeToTopics : M unit :=
  s <- get ;;
  match client s with
  | None => ret tt
  | Some _ =>
      if negb (isConnected s) then ret tt
      else
        subscribe "/topic/location/updates" ;;
        subscribe "/topic/location/status" ;;
        subscribe "/topic/location/disconnection"
  end.

Definition handleReconnect : M unit :=
  s <- get ;;
  if reconnectAttempts s >=? maxReconnectAttempts then ret tt
  else
    modify (set_reconnectAttempts (reconnectAttempts s + 1)) ;;
    s <- get ;;
    let delay := Z.min (reconnectDelay s * 2 ^ (reconnectAttempts s - 1))
                       maxReconnectDelay in
    setTimeout delay.

Definition activate : M unit :=
  modify (fun s =>
            match client s with
            | Some c => set_client (Some (mkClient true (subscriptions c))) s
            | None => s
            end) ;;
  emit Activate.

Definition deactivate : M unit :=
  modify (fun s =>
            match client s with
            | Some c => set_client (Some (mkClient false (subscriptions c))) s
            | None => s
            end) ;;
  emit Deactivate.

Definition connect : M unit :=
  s <- get ;;
  if isConnected s then ret tt
  else
    (match client s with
     | None => setupClient
     | Some _ => ret tt
     end) ;;
    s <- get ;;
    match client s with
    | Some _ => activate
    | None => ret tt
    end.

Definition disconnect : M unit :=
  s <- get ;;
  match client s with
  | Some _ =>
      deactivate ;;
      modify (set_isConnected false) ;;
      notifyConnectionCallbacks false
  | None => ret tt
  end.

Definition isWebSocketConnected : M bool :=
  s <- get ;; ret (isConnected s).

Definition onConnectionChange (callback : nat) : M unit :=
  modify (fun s => set_connectionCallbacks (connectionCallbacks s ++ [callback]) s).

(** The handlers that [setupClient] installs on the client. *)
Definition onConnect : M unit :=
  modify (set_isConnected true) ;;
  modify (set_reconnectAttempts 0) ;;
  modify (set_reconnectDelay 1000) ;;
  notifyConnectionCallbacks true ;;
  subscribeToTopics.

Definition onDisconnect : M unit :=
  modify (set_isConnected false) ;;
  notifyConnectionCallbacks false.

(** [onStompError], [onWebSocketError] and [onWebSocketClose] have the
    same body. *)
Definition onFailure : M unit :=
  modify (set_isConnected false) ;;
  notifyConnectionCallbacks false ;;
  handleReconnect.

(** The callback of a reconnect timer. *)
Definition timerCallback : M unit :=
  s <- get ;;
  if negb (isConnected s) then connect else ret tt.

(** [new WebSocketService()] *)
Definition new (stored : option string) : t :=
  exec setupClient (mk stored None false 0 1000 [] []).

(** What happens to the service: calls of its public methods, calls by the
    client of the handlers installed on it (there are none without a
    client), and the run of the pending timer number [i]. *)
Inductive Event : Type :=
| Connect
| Disconnect
| OnConnectionChange (callback : nat)
| OnConnect
| OnDisconnect
| OnStompError
| OnWebSocketError
| OnWebSocketClose
| TimerFires (i : nat).

Definition withClient (handler : M unit) : M unit :=
  s <- get ;;
  match client s with
  | Some _ => handler
  | None => ret tt
  end.

Definition step (e : Event) : M unit :=
  match e with
  | Connect => connect
  | Disconnect => disconnect
  | OnConnectionChange callback => onConnectionChange callback
  | OnConnect => withClient onConnect
  | OnDisconnect => withClient onDisconnect
  | OnStompError => withClient onFailure
  | OnWebSocketError => withClient onFailure
  | OnWebSocketClose => withClient onFailure
  | TimerFires i =>
      s <- get ;;
      match pendingTimers s !! i with
      | Some _ =>
          modify (set_pendingTimers (delete i (pendingTimers s))) ;;
          timerCallback
      | None => ret tt
      end
  end.

Definition run (es : list Event) : M unit := forEach es step.

Definition isFailure (e : Event) : bool :=
  match e with
  | OnStompError | OnWebSocketError | OnWebSocketClose => true
  | _ => false
  end.

Definition isOnConnect (e : Event) : bool :=
  match e with OnConnect => true | _ => false end.

(** The delays of the timers set in a trace. *)
Definition delaysOf (out : list Effect) : list Z :=
  omap (fun e => match e with SetTimeout d => Some d | _ => None end) out.

Definition notificationsOf (out : list Effect) : list (nat * bool) :=
  omap (fun e => match e with Notify c b => Some (c, b) | _ => None end) out.

(** The number of failure reports in a run of events, and whether the run
    is free of successful connects. *)
Definition failures (es : list Event) : Z :=
  Z.of_nat (length (List.filter isFailure es)).

Definition noOnConnect (es : list Event) : bool :=
  forallb (fun e => negb (isOnConnect e)) es.

(** The schedule of the specification: the delay of the [N]-th retry. *)
Definition backoff (N : Z) : Z := Z.min (1000 * 2 ^ (N - 1)) 30000.

End WebSocketService.

(* ===================================================================== *)
(** ** The reconciliation store of [AgentTracking.tsx] *)
(* ===================================================================== *)

Module AgentTracking.

Module U := AgentLocationUpdate.
Module S := ConnectionStatusUpdate.

(** [interface AgentLocation] *)
Record AgentLocation : Type := mkAgentLocation {
  agentId : string;
  agentFirstName : string;
  agentLastName : string;
  agentMobile : string;
  lastLocation : string;
  latitude : number;
  longitude : number;
  accuracy : option number;
  connectionStatus : ConnectionStatus;
  lastUpdate : string;
  batteryLevel : option number;
  isCharging : option bool;
  isOnline : bool
}.

(** [{ ...agent, ...update, lastUpdate: currentTime }] *)
Definition merge_update (agent : AgentLocation) (update : U.t)
    (currentTime : string) : AgentLocation :=
  {| agentId := U.agentId update;
     agentFirstName := U.agentFirstName update;
     agentLastName := U.agentLastName update;
     agentMobile := U.agentMobile update;
     lastLocation := U.lastLocation update;
     latitude := U.latitude update;
     longitude := U.longitude update;
     accuracy := spread_key (accuracy agent) (U.accuracy update);
     connectionStatus := U.connectionStatus update;
     lastUpdate := currentTime;
     batteryLevel := spread_key (batteryLevel agent) (U.batteryLevel update);
     isCharging := spread_key (isCharging agent) (U.isCharging update);
     isOnline := U.isOnline update |}.

(** [{ ...update, lastUpdate: currentTime }] *)
Definition of_update (update : U.t) (currentTime : string) : AgentLocation :=
  {| agentId := U.agentId update;
     agentFirstName := U.agentFirstName update;
     agentLastName := U.agentLastName update;
     agentMobile := U.agentMobile update;
     lastLocation := U.lastLocation update;
     latitude := U.latitude update;
     longitude := U.longitude update;
     accuracy := U.accuracy update;
     connectionStatus := U.connectionStatus update;
     lastUpdate := currentTime;
     batteryLevel := U.batteryLevel update;
     isCharging := U.isCharging update;
     isOnline := U.isOnline update |}.

(** The state updater that [handleLocationUpdate] hands to [setAgents]:
    [prevAgents.map(...)], then [push] when [find] comes back empty. *)
Definition handleLocationUpdate (currentTime : string) (update : U.t)
    (prevAgents : list AgentLocation) : list AgentLocation :=
  let updatedAgents :=
    map (fun agent =>
           if String.eqb (agentId agent) (U.agentId update)
           then merge_update agent update currentTime
           else agent) prevAgents in
  match find (fun agent => String.eqb (agentId agent) (U.agentId update))
             updatedAgents with
  | None => updatedAgents ++ [of_update update currentTime]
  | Some _ => updatedAgents
  end.

(** [{ ...agent, connectionStatus: update.status,
       isOnline: update.status === 'ONLINE', lastUpdate: now }] *)
Definition set_status (agent : AgentLocation) (update : S.t)
    (currentTime : string) : AgentLocation :=
  {| agentId := agentId agent;
     agentFirstName := agentFirstName agent;
     agentLastName := agentLastName agent;
     agentMobile := agentMobile agent;
     lastLocation := lastLocation agent;
     latitude := latitude agent;
     longitude := longitude agent;
     accuracy := accuracy agent;
     connectionStatus := S.status update;
     lastUpdate := currentTime;
     batteryLevel := batteryLevel agent;
     isCharging := isCharging agent;
     isOnline := is_ONLINE (S.status update) |}.

(** The state updater of [handleStatusUpdate]. *)
Definition handleStatusUpdate (currentTime : string) (update : S.t)
    (prevAgents : list AgentLocation) : list AgentLocation :=
  map (fun agent =>
         if String.eqb (agentId agent) (S.agentId update)
         then set_status agent update currentTime
         else agent) prevAgents.

(** The synchronisation property of one record and of one event. *)
Definition synced (agent : AgentLocation) : Prop :=
  isOnline agent = is_ONLINE (connectionStatus agent).

Definition synced_update (update : U.t) : Prop :=
  U.isOnline update = is_ONLINE (U.connectionStatus update).

(** The merge keys of a store, in order. *)
Definition ids (store : list AgentLocation) : list string := agentId <$> store.

(* ------------------------------------------------------------------- *)
(** *** Component state, closures and effects *)
(* ------------------------------------------------------------------- *)

Local Open Scope Z_scope.

Record LocationStats : Type := mkStats {
  onlineAgents : Z;
  offlineAgents : Z;
  totalAgents : Z
}.

(** The [useState] cells of the component, together with the value of
    [useAuth().user?.role].  One value of this type is also what a render
    binds to its [const]s: a function created during a render reads the
    cells as they were in that render, whenever it is called later; it
    changes the current cells only through the setters. *)
Record State : Type := mkState {
  user_role : option string;
  agents : list AgentLocation;
  loading : bool;
  stats : LocationStats;
  wsConnected : bool;
  lastUpdateTime : string;
  retryCount : Z;
  isRetrying : bool
}.

Definition setAgents (f : list AgentLocation -> list AgentLocation) (s : State) : State :=
  mkState (user_role s) (f (agents s)) (loading s) (stats s) (wsConnected s)
          (lastUpdateTime s) (retryCount s) (isRetrying s).
Definition setLoading (b : bool) (s : State) : State :=
  mkState (user_role s) (agents s) b (stats s) (wsConnected s)
          (lastUpdateTime s) (retryCount s) (isRetrying s).
Definition setStats (v : LocationStats) (s : State) : State :=
  mkState (user_role s) (agents s) (loading s) v (wsConnected s)
          (lastUpdateTime s) (retryCount s) (isRetrying s).
Definition setWsConnected (b : bool) (s : State) : State :=
  mkState (user_role s) (agents s) (loading s) (stats s) b
          (lastUpdateTime s) (retryCount s) (isRetrying s).
Definition setLastUpdateTime (t : string) (s : State) : State :=
  mkState (user_role s) (agents s) (loading s) (stats s) (wsConnected s)
          t (retryCount s) (isRetrying s).
Definition setRetryCount (f : Z -> Z) (s : State) : State :=
  mkState (user_role s) (agents s) (loading s) (stats s) (wsConnected s)
          (lastUpdateTime s) (f (retryCount s)) (isRetrying s).
Definition setIsRetrying (b : bool) (s : State) : State :=
  mkState (user_role s) (agents s) (loading s) (stats s) (wsConnected s)
          (lastUpdateTime s) (retryCount s) b.

(** First render: the initial values handed to [useState]. *)
Definition initialState (role : option string) (now : string) : State :=
  {| user_role := role;
     agents := [];
     loading := true;
     stats := mkStats 0 0 0;
     wsConnected := false;
     lastUpdateTime := now;
     retryCount := 0;
     isRetrying := false |}.

Definition MAX_RETRY_ATTEMPTS : Z := 3.
Definition RETRY_DELAY : Z := 2000.
Definition UPDATE_INTERVAL : Z := 30000.

(** What the component does to the outside. *)
Inductive Effect : Type :=
| Fetch (endpoint : string)
| ShowError (title : string) (message : option string)
| ShowSuccess (title : string)
| SetTimeout (delay : Z).

(** A pending [setTimeout(() => loadAgentLocations(true), delay)]: the
    callback calls the [loadAgentLocations] of the render that created it. *)
Record Timer : Type := mkTimer {
  delay : Z;
  closure : State
}.

Record World : Type := mkWorld {
  hooks : State;
  timers : list Timer;
  trace : list Effect
}.

Definition update (f : State -> State) (w : World) : World :=
  mkWorld (f (hooks w)) (timers w) (trace w).
Definition emit (e : Effect) (w : World) : World :=
  mkWorld (hooks w) (timers w) (trace w ++ [e]).
Definition setTimeout (d : Z) (render : State) (w : World) : World :=
  mkWorld (hooks w) (timers w ++ [mkTimer d render]) (trace w ++ [SetTimeout d]).

(** A thrown JavaScript error, as far as the [catch] block looks at it. *)
Record JsError : Type := mkError {
  name : string;
  message : string
}.

(** How one [fetch] of the snapshot ends.  [Threw] is a rejection of
    [fetch] or of [response.json()]; the abort issued by the 10 second
    timer rejects [fetch] with an error named [AbortError]. *)
Inductive FetchOutcome : Type :=
| Threw (error : JsError)
| Replied (ok success : bool) (data : option (list AgentLocation))
          (msg : option string).

Definition timedOut : FetchOutcome :=
  Threw (mkError "AbortError" "The user aborted a request.").

Definition agentsEndpoint (render : State) : string :=
  match user_role render with
  | Some r => if String.eqb r "master" then "/api/location/all"
              else "/api/location/my-agents"
  | None => "/api/location/my-agents"
  end.

Definition statsEndpoint (render : State) : string :=
  match user_role render with
  | Some r => if String.eqb r "master" then "/api/location/stats"
              else "/api/location/stats/my-agents"
  | None => "/api/location/stats/my-agents"
  end.

Definition timeoutMessage : string :=
  "Request timed out. Please check your connection.".

(** The [catch] block of [loadAgentLocations].  [retryCount] is the
    [const] of the render in which this [loadAgentLocations] was created. *)
Definition loadAgentLocations_catch (render : State) (error : JsError)
    (w : World) : World :=
  if (retryCount render <? MAX_RETRY_ATTEMPTS)
     && negb (String.eqb (name error) "AbortError")
  then
    setTimeout (RETRY_DELAY * (retryCount render + 1)) render
               (update (setRetryCount (fun prev => prev + 1)) w)
  else
    let errorMessage :=
      if String.eqb (name error) "AbortError"
      then "Request timed out. Please check your connection."
      else or_default (Some (message error)) "Failed to load agent locations" in
    update (setAgents (fun _ => []))
           (emit (ShowError "Connection Error" (Some errorMessage)) w).

(** [loadAgentLocations(isRetryAttempt)] of the render [render], run to
    completion against one outcome of the request. *)
Definition loadAgentLocations (render : State) (isRetryAttempt : bool)
    (outcome : FetchOutcome) (now : string) (w : World) : World :=
  let w1 :=
    if isRetryAttempt then update (setIsRetrying true) w
    else update (setRetryCount (fun _ => 0)) (update (setLoading true) w) in
  let w2 := emit (Fetch (agentsEndpoint render)) w1 in
  let w3 :=
    match outcome with
    | Threw error => loadAgentLocations_catch render error w2
    | Replied ok success data msg =>
        if ok && success then
          update (setLastUpdateTime now)
            (update (setRetryCount (fun _ => 0))
               (update (setAgents (fun _ => default [] data)) w2))
        else
          loadAgentLocations_catch render
            (mkError "Error" (or_default msg "Failed to load agent locations")) w2
    end in
  update (setIsRetrying false) (update (setLoading false) w3).

(** [loadLocationStats]: a failure is logged and nothing else. *)
Definition loadLocationStats (render : State) (outcome : option LocationStats)
    (w : World) : World :=
  let w1 := emit (Fetch (statsEndpoint render)) w in
  match outcome with
  | Some data => update (setStats data) w1
  | None => w1
  end.

Definition handleConnectionChange (connected : bool) (w : World) : World :=
  let w1 := update (setWsConnected connected) w in
  if connected then emit (ShowSuccess "Real-time tracking connected") w1
  else emit (ShowError "Real-time tracking disconnected" None) w1.

(** The callback given to [setInterval(..., UPDATE_INTERVAL)] by the
    effect of the render [render]. *)
Definition pollTick (render : State) (snapshot : FetchOutcome)
    (statistics : option LocationStats) (now : string) (w : World) : World :=
  if negb (wsConnected render)
  then loadLocationStats render statistics
         (loadAgentLocations render false snapshot now w)
  else w.

(** What can happen to the mounted component. *)
Inductive Event : Type :=
| LocationUpdate (now : string) (u : U.t)
| StatusUpdate (now : string) (u : S.t)
| ConnectionChange (connected : bool)
| PollTick (snapshot : FetchOutcome) (statistics : option LocationStats) (now : string)
| StatsTick (statistics : option LocationStats)
| RetryTimer (snapshot : FetchOutcome) (now : string)
| RefreshClick (snapshot : FetchOutcome) (now : string).

(** One event of the mounted component.  The effect that installs the
    listeners and the two intervals has the dependency list [[]]: it runs
    once, after the first render, so everything it installs belongs to
    [first].  The timer callback of a retry belongs to the render recorded
    in the timer; the Refresh button is re-rendered and belongs to the
    current cells (its click event is the truthy [isRetryAttempt]). *)
Definition step (first : State) (e : Event) (w : World) : World :=
  match e with
  | LocationUpdate now u =>
      update (setLastUpdateTime now)
             (update (setAgents (handleLocationUpdate now u)) w)
  | StatusUpdate now u => update (setAgents (handleStatusUpdate now u)) w
  | ConnectionChange connected => handleConnectionChange connected w
  | PollTick snapshot statistics now => pollTick first snapshot statistics now w
  | StatsTick statistics => loadLocationStats first statistics w
  | RetryTimer snapshot now =>
      match timers w with
      | [] => w
      | t :: rest =>
          loadAgentLocations (closure t) true snapshot now
                             (mkWorld (hooks w) rest (trace w))
      end
  | RefreshClick snapshot now => loadAgentLocations (hooks w) true snapshot now w
  end.

Definition run (first : State) (es : list Event) (w : World) : World :=
  fold_left (fun w e => step first e w) es w.

(** The mount effect: first snapshot and statistics, then the listeners. *)
Definition mount (role : option string) (now : string)
    (snapshot : FetchOutcome) (statistics : option LocationStats)
    (connectedAtMount : bool) : World :=
  let first := initialState role now in
  update (setWsConnected connectedAtMount)
    (loadLocationStats first statistics
       (loadAgentLocations first false snapshot now (mkWorld first [] []))).

(** The error notifications of the snapshot loader in a trace, and the
    delays of the retries set in it. *)
Definition errorsShown (w : World) : list Effect :=
  List.filter
    (fun e => match e with
              | ShowError t _ => String.eqb t "Connection Error"
              | _ => false
              end)
    (trace w).

Definition delaysScheduled (w : World) : list Z :=
  omap (fun e => match e with SetTimeout d => Some d | _ => None end) (trace w).

End AgentTracking.

(* ===================================================================== *)
(** ** The viewport of the [GoogleMap] component *)
(* ===================================================================== *)

Module GoogleMap.

Record LatLng : Type := mkLatLng {
  lat : number;
  lng : number
}.

(** [interface AgentMarker] *)
Record AgentMarker : Type := mkAgentMarker {
  agentId : string;
  agentFirstName : string;
  agentLastName : string;
  agentMobile : string;
  latitude : number;
  longitude : number;
  connectionStatus : ConnectionStatus;
  lastUpdate : string;
  batteryLevel : option number;
  isOnline : bool
}.

(** [interface GoogleMapProps], without the click handler. *)
Record GoogleMapProps : Type := mkProps {
  agents : list AgentMarker;
  center : option LatLng;
  zoom : option number;
  height : option string;
  enableSmoothMovement : option bool;
  autoFitBounds : option bool;
  preserveZoom : option bool
}.

(** A marker of the widget, as far as the viewport code reads it. *)
Record Marker : Type := mkMarker {
  getPosition : option LatLng
}.

(** A [LatLngBounds] is known by the positions it was extended with. *)
Definition LatLngBounds : Type := list LatLng.

(** The widget: its viewport and the one-shot [bounds_changed] listeners
    ([Some limit] stands for
    [() => { if (map.getZoom() > limit) map.setZoom(limit) }]). *)
Record Map : Type := mkMap {
  getCenter : LatLng;
  getZoom : number;
  boundsChangedOnce : list number
}.

Definition setCenter (p : LatLng) (m : Map) : Map :=
  mkMap p (getZoom m) (boundsChangedOnce m).
Definition setZoom (z : number) (m : Map) : Map :=
  mkMap (getCenter m) z (boundsChangedOnce m).
Definition addListenerOnce (limit : number) (m : Map) : Map :=
  mkMap (getCenter m) (getZoom m) (boundsChangedOnce m ++ [limit]).

(** [if (map.getZoom() > limit) map.setZoom(limit)] *)
Definition clampZoom (limit : number) (m : Map) : Map :=
  if Qle_bool (getZoom m) limit then m else setZoom limit m.

(** The widget reports [bounds_changed]: the one-shot listeners run. *)
Definition boundsChanged (m : Map) : Map :=
  fold_left (fun m limit => clampZoom limit m) (boundsChangedOnce m)
            (mkMap (getCenter m) (getZoom m) []).

(** The state of [MapComponent] that the viewport effect reads. *)
Record Component : Type := mkComponent {
  map : option Map;
  markersRef : list (string * Marker);
  isInitialLoad : bool
}.

Section Widget.

(** The centre and zoom that the widget's [fitBounds] chooses. *)
Variable fitView : LatLngBounds -> LatLng * number.
(** Whether [window.google] is there. *)
Variable google : bool.

Definition fitBounds (bounds : LatLngBounds) (m : Map) : Map :=
  mkMap (fst (fitView bounds)) (snd (fitView bounds)) (boundsChangedOnce m).

(** The body of the "smart bounds fitting" effect of [MapComponent].
    [MapComponent] binds [agents], [onAgentClick], [center], [zoom] and
    [height] of its props and nothing else; the effect has the
    dependencies [map], [markers] and [isInitialLoad]. *)
Definition fitEffect (props : GoogleMapProps) (c : Component) : Component :=
  match map c with
  | None => c
  | Some m =>
      if (length (markersRef c) =? 0)%nat || negb google then c
      else
        let bounds : LatLngBounds :=
          omap (fun entry => getPosition (snd entry)) (markersRef c) in
        let validMarkers := length bounds in
        let m' :=
          if (validMarkers =? 1)%nat then
            match markersRef c with
            | (_, marker) :: _ =>
                match getPosition marker with
                | Some position => setZoom 15 (setCenter position m)
                | None => m
                end
            | [] => m
            end
          else if (1 <? validMarkers)%nat then
            addListenerOnce 16 (fitBounds bounds m)
          else m in
        mkComponent (Some m') (markersRef c)
                    (if isInitialLoad c then false else isInitialLoad c)
  end.

(** The effect followed by the widget's [bounds_changed]. *)
Definition fitAndSettle (props : GoogleMapProps) (c : Component) : Component :=
  let c' := fitEffect props c in
  mkComponent (option_map boundsChanged (map c')) (markersRef c') (isInitialLoad c').

End Widget.

(** The props that [AgentTracking] passes for a map view and a focus. *)
Definition trackingProps (overview : bool) (focusedAgent : option LatLng)
    (shown : list AgentMarker) : GoogleMapProps :=
  {| agents := shown;
     center := focusedAgent;
     zoom := Some (match focusedAgent with Some _ => 15 | None => 10 end);
     height := Some "500px";
     enableSmoothMovement := Some true;
     autoFitBounds := Some overview;
     preserveZoom := Some (negb overview) |}.

End GoogleMap.

(* ===================================================================== *)
(** ** Display helpers of [AgentTracking.tsx] *)
(* ===================================================================== *)

Module Display.

Local Open Scope Z_scope.

Section Dates.

(** [new Date(timestamp).getTime()] in milliseconds, [None] for an invalid
    date (whose time is [NaN]), and [new Date(timestamp).toLocaleDateString()]. *)
Variable parse : string -> option Z.
Variable toLocaleDateString : string -> string.

(** [formatLastUpdate(timestamp)] at the time [now] (milliseconds).  With an
    invalid date every comparison is false, which leaves the last [return];
    nothing in the [try] block throws. *)
Definition formatLastUpdate (now : Z) (timestamp : string) : string :=
  match parse timestamp with
  | None => toLocaleDateString timestamp
  | Some date =>
      let diffMs := now - date in
      let diffSeconds := diffMs / 1000 in
      if diffSeconds <? 10 then "Just now"
      else
        let diffMins := diffMs / 60000 in
        if diffMins <? 1 then "Just now"
        else if diffMins <? 60 then pretty diffMins +:+ "m ago"
        else if diffMins <? 1440 then pretty (diffMins / 60) +:+ "h ago"
        else toLocaleDateString timestamp
  end.

End Dates.

End Display.

(* ===================================================================== *)
(** ** Map view, focus and filters of [AgentTracking.tsx] *)
(* ===================================================================== *)

Module TrackingView.

Import AgentTracking.

Inductive MapView : Type := overview | agent_detail.

Module StatusFilter.
Inductive t : Type := ALL | ONLINE | OFFLINE.
End StatusFilter.

(** The [useState] cells for the map view and the two searches. *)
Record View : Type := mkView {
  mapView : MapView;
  focusedAgent : option AgentLocation;
  selectedAgent : option AgentLocation;
  agentSearchTerm : string;
  agentListSearchTerm : string;
  statusFilter : StatusFilter.t
}.

Definition initialView : View :=
  mkView overview None None "" "" StatusFilter.ALL.

Definition handleAgentNameClick (agent : AgentLocation) (v : View) : View :=
  mkView agent_detail (Some agent) (Some agent)
         (agentSearchTerm v) (agentListSearchTerm v) (statusFilter v).

Definition handleBackToOverview (v : View) : View :=
  mkView overview None None "" (agentListSearchTerm v) (statusFilter v).

(** The [onAgentClick] handed to the map:
    [fullAgent = agents.find(a => a.agentId === agent.agentId)]. *)
Definition onAgentClick (agents : list AgentLocation) (clicked : string)
    (v : View) : View :=
  match find (fun a => String.eqb (agentId a) clicked) agents with
  | Some fullAgent => handleAgentNameClick fullAgent v
  | None => v
  end.

Definition isDetail (m : MapView) : bool :=
  match m with agent_detail => true | overview => false end.

(** [s.includes(t)] *)
Definition includes (s t : string) : bool :=
  match String.index 0 t s with Some _ => true | None => false end.

Section Strings.

(** [String.prototype.toLowerCase] and [String.prototype.trim]. *)
Variable toLowerCase : string -> string.
Variable trim : string -> string.

Definition isBlank (term : string) : bool := String.eqb (trim term) "".

Definition filteredAgentsForSearch (v : View) (agents : list AgentLocation)
    : list AgentLocation :=
  if negb (isDetail (mapView v)) || isBlank (agentSearchTerm v) then agents
  else
    List.filter
      (fun agent =>
         includes (toLowerCase (agentFirstName agent +:+ " " +:+ agentLastName agent))
                  (toLowerCase (agentSearchTerm v))
         || includes (agentMobile agent) (agentSearchTerm v)
         || includes (toLowerCase (lastLocation agent))
                     (toLowerCase (agentSearchTerm v)))
      agents.

Definition statusName (s : ConnectionStatus) : string :=
  match s with
  | ONLINE => "ONLINE"
  | OFFLINE => "OFFLINE"
  | DISCONNECTED => "DISCONNECTED"
  end.

Definition passesStatus (f : StatusFilter.t) (agent : AgentLocation) : bool :=
  match f with
  | StatusFilter.ALL => true
  | StatusFilter.ONLINE => isOnline agent
  | StatusFilter.OFFLINE => negb (isOnline agent)
  end.

Definition filteredAgentsForList (v : View) (agents : list AgentLocation)
    : list AgentLocation :=
  let filtered :=
    match statusFilter v with
    | StatusFilter.ALL => agents
    | f => List.filter (passesStatus f) agents
    end in
  if negb (isBlank (agentListSearchTerm v)) then
    List.filter
      (fun agent =>
         includes (toLowerCase (agentFirstName agent +:+ " " +:+ agentLastName agent))
                  (toLowerCase (agentListSearchTerm v))
         || includes (agentMobile agent) (agentListSearchTerm v)
         || includes (toLowerCase (lastLocation agent))
                     (toLowerCase (agentListSearchTerm v))
         || includes (toLowerCase (statusName (connectionStatus agent)))
                     (toLowerCase (agentListSearchTerm v)))
      filtered
  else filtered.

Definition toMarker (agent : AgentLocation) : GoogleMap.AgentMarker :=
  {| GoogleMap.agentId := agentId agent;
     GoogleMap.agentFirstName := agentFirstName agent;
     GoogleMap.agentLastName := agentLastName agent;
     GoogleMap.agentMobile := agentMobile agent;
     GoogleMap.latitude := latitude agent;
     GoogleMap.longitude := longitude agent;
     GoogleMap.connectionStatus := connectionStatus agent;
     GoogleMap.lastUpdate := lastUpdate agent;
     GoogleMap.batteryLevel := batteryLevel agent;
     GoogleMap.isOnline := isOnline agent |}.

(** The props of [<GoogleMap ... />] in the render of the view [v]. *)
Definition googleMapProps (v : View) (agents : list AgentLocation)
    : GoogleMap.GoogleMapProps :=
  {| GoogleMap.agents :=
       map toMarker (if isDetail (mapView v) then filteredAgentsForSearch v agents
                     else agents);
     GoogleMap.center :=
       match focusedAgent v with
       | Some agent => Some (GoogleMap.mkLatLng (latitude agent) (longitude agent))
       | None => None
       end;
     GoogleMap.zoom := Some (match focusedAgent v with Some _ => 15 | None => 10 end);
     GoogleMap.height := Some "500px";
     GoogleMap.enableSmoothMovement := Some true;
     GoogleMap.autoFitBounds := Some (negb (isDetail (mapView v)));
     GoogleMap.preserveZoom := Some (isDetail (mapView v)) |}.

End Strings.

(** What the user does to the view; a click on a marker comes with the
    store of the render that drew the map. *)
Inductive Action : Type :=
| NameClick (agent : AgentLocation)
| BackToOverview
| MarkerClick (agents : list AgentLocation) (clicked : string)
| TypeSearch (term : string)
| TypeListSearch (term : string)
| ChooseStatus (f : StatusFilter.t).

Definition act (a : Action) (v : View) : View :=
  match a with
  | NameClick agent => handleAgentNameClick agent v
  | BackToOverview => handleBackToOverview v
  | MarkerClick agents clicked => onAgentClick agents clicked v
  | TypeSearch term =>
      mkView (mapView v) (focusedAgent v) (selectedAgent v) term
             (agentListSearchTerm v) (statusFilter v)
  | TypeListSearch term =>
      mkView (mapView v) (focusedAgent v) (selectedAgent v) (agentSearchTerm v)
             term (statusFilter v)
  | ChooseStatus f =>
      mkView (mapView v) (focusedAgent v) (selectedAgent v) (agentSearchTerm v)
             (agentListSearchTerm v) f
  end.

Definition acts (l : list Action) (v : View) : View :=
  fold_left (fun v a => act a v) l v.

End TrackingView.

(* ===================================================================== *)
(** ** Markers and centre of the [GoogleMap] component *)
(* ===================================================================== *)

Module MapEffects.

Import GoogleMap.

(** A marker of the widget with what [MapComponent] gives it: position, icon
    colour, title, and the agent that its click listener closes over (the
    listener is added when the marker is created and never replaced). *)
Record MapMarker : Type := mkMapMarker {
  position : LatLng;
  fillColor : string;
  title : string;
  info : AgentMarker
}.

(** [markersRef.current], a [Map] from agent identifier to marker, in
    insertion order. *)
Definition Markers : Type := list (string * MapMarker).

Definition keys (markers : Markers) : list string := fst <$> markers.

(** [markers.get(id)] *)
Definition get (id : string) (markers : Markers) : option MapMarker :=
  snd <$> find (fun entry => String.eqb (fst entry) id) markers.

Definition markerColor (agent : AgentMarker) : string :=
  if is_ONLINE (connectionStatus agent) || isOnline agent
  then "#10B981" else "#EF4444".

Definition markerTitle (agent : AgentMarker) : string :=
  agentFirstName agent +:+ " " +:+ agentLastName agent
    +:+ " (" +:+ TrackingView.statusName (connectionStatus agent) +:+ ")".

(** [!x] for a number: true of [0] (and of [NaN]). *)
Definition falsy (x : number) : bool := Qeq_bool x 0.

(** [setPosition], [setIcon] and [setTitle] on an existing marker. *)
Definition refreshMarker (agent : AgentMarker) (marker : MapMarker) : MapMarker :=
  mkMapMarker (mkLatLng (latitude agent) (longitude agent))
              (markerColor agent) (markerTitle agent) (info marker).

(** [new google.maps.Marker({...})] with its click listener. *)
Definition createMarker (agent : AgentMarker) : MapMarker :=
  mkMapMarker (mkLatLng (latitude agent) (longitude agent))
              (markerColor agent) (markerTitle agent) agent.

(** The marker of the agent is refreshed where it is; the other entries of
    the [Map] are not touched. *)
Definition refreshEntry (agent : AgentMarker) (entry : string * MapMarker)
    : string * MapMarker :=
  if String.eqb (fst entry) (agentId agent)
  then (fst entry, refreshMarker agent (snd entry))
  else entry.

(** The body of [processedAgents.forEach(agent => ...)]. *)
Definition syncAgent (agent : AgentMarker) (markers : Markers) : Markers :=
  if falsy (latitude agent) || falsy (longitude agent) then markers
  else
    match get (agentId agent) markers with
    | Some _ => List.map (refreshEntry agent) markers
    | None => markers ++ [(agentId agent, createMarker agent)]
    end.

(** Whether an agent gets a marker at all. *)
Definition placed (agent : AgentMarker) : bool :=
  negb (falsy (latitude agent) || falsy (longitude agent)).

(** What a run of the effect over [agents] does to an entry that is already
    in the [Map]. *)
Definition refreshAll (agents : list AgentMarker) (entry : string * MapMarker)
    : string * MapMarker :=
  fold_left (fun entry agent =>
               if placed agent then refreshEntry agent entry else entry)
            agents entry.

(** The marker effect of [MapComponent] over [processedAgents]; [ready]
    says that the map and the info window exist. *)
Definition syncEffect (ready : bool) (processedAgents : list AgentMarker)
    (markers : Markers) : Markers :=
  if negb ready then markers
  else fold_left (fun markers agent => syncAgent agent markers)
                 processedAgents markers.

(** The markers as the viewport effect reads them. *)
Definition toViewport (markers : Markers) : list (string * Marker) :=
  (fun entry => (fst entry, mkMarker (Some (position (snd entry))))) <$> markers.

(** The default of the [center] prop, and the effect
    [if (map && center) { map.setCenter(center);
       if (zoom !== map.getZoom()) map.setZoom(zoom) }]
    with the defaults of [center] and [zoom] filled in. *)
Definition defaultCenter : LatLng := mkLatLng (286139 # 10000) (772090 # 10000).

Definition centerEffect (props : GoogleMapProps) (c : Component) : Component :=
  match map c with
  | None => c
  | Some m =>
      let center := default defaultCenter (center props) in
      let zoom := default 10 (zoom props) in
      let m1 := setCenter center m in
      mkComponent
        (Some (if Qeq_bool zoom (getZoom m1) then m1 else setZoom zoom m1))
        (markersRef c) (isInitialLoad c)
  end.

End MapEffects.

(* ===================================================================== *)
(** ** Two events about one agent *)
(* ===================================================================== *)

Module Events.

Module U := AgentLocationUpdate.

(** The event [later], with the optional keys it lacks taken from the event
    [earlier]: what [{...earlier, ...later}] is. *)
Definition backfill (earlier later : U.t) : U.t :=
  {| U.agentId := U.agentId later;
     U.agentFirstName := U.agentFirstName later;
     U.agentLastName := U.agentLastName later;
     U.agentMobile := U.agentMobile later;
     U.lastLocation := U.lastLocation later;
     U.latitude := U.latitude later;
     U.longitude := U.longitude later;
     U.accuracy := spread_key (U.accuracy earlier) (U.accuracy later);
     U.connectionStatus := U.connectionStatus later;
     U.lastUpdate := U.lastUpdate later;
     U.batteryLevel := spread_key (U.batteryLevel earlier) (U.batteryLevel later);
     U.isCharging := spread_key (U.isCharging earlier) (U.isCharging later);
     U.isOnline := U.isOnline later |}.

End Events.

(* ===================================================================== *)
(** ** Listener lists of [WebSocketService.ts] *)
(* ===================================================================== *)

Module Listeners.

Local Open Scope Z_scope.

(** [callbacks.indexOf(callback)]: the first position of the function
    reference, [-1] when it is not in the list. *)
Fixpoint indexOf (callback : nat) (callbacks : list nat) : Z :=
  match callbacks with
  | [] => -1
  | c :: rest =>
      if Nat.eqb c callback then 0
      else let i := indexOf callback rest in
           if i =? -1 then -1 else i + 1
  end.

(** [callbacks.push(callback)], the body of [onLocationUpdate],
    [onStatusUpdate] and [onConnectionChange]. *)
Definition register (callback : nat) (callbacks : list nat) : list nat :=
  callbacks ++ [callback].

(** The function that each of them returns:
    [index = indexOf(callback); if (index > -1) splice(index, 1)]. *)
Definition unsubscribe (callback : nat) (callbacks : list nat) : list nat :=
  let index := indexOf callback callbacks in
  if index >? -1 then delete (Z.to_nat index) callbacks else callbacks.

(** What one listener is told by a trace of the service. *)
Definition heard (callback : nat) (out : list WebSocketService.Effect) : list bool :=
  omap (fun e => match e with
                 | WebSocketService.Notify c connected =>
                     if Nat.eqb c callback then Some connected else None
                 | _ => None
                 end) out.



(** The tracking page hears the service through [handleConnectionChange]. *)
Definition deliver (told : list bool) (w : AgentTracking.World) : AgentTracking.World :=
  fold_left (fun w connected => AgentTracking.handleConnectionChange connected w) told w.

(** The toasts of a trace of the page. *)
Definition toasts (w : AgentTracking.World) : list AgentTracking.Effect :=
  List.filter (fun e => match e with
                        | AgentTracking.ShowError _ _ | AgentTracking.ShowSuccess _ => true
                        | _ => false
                        end) (AgentTracking.trace w).

End Listeners.

(* ===================================================================== *)
(** ** Sample markers *)
(* ===================================================================== *)

Module Scenarios.

Import GoogleMap MapEffects.

(** Two agents as the map receives them, a later report of the first, and
    an agent reported on the equator. *)
Definition markerA1 : AgentMarker :=
  mkAgentMarker "A1" "Asha" "Rao" "9000000001" (2861 # 100) (7720 # 100)
                OFFLINE "2025-01-01T10:00:00.000Z" (Some (80 # 1)) false.

Definition markerA1later : AgentMarker :=
  mkAgentMarker "A1" "Asha" "Rao" "9000000001" (28615 # 1000) (77205 # 1000)
                ONLINE "2025-01-01T10:00:30.000Z" None true.

Definition markerA2 : AgentMarker :=
  mkAgentMarker "A2" "Bela" "Nair" "9000000002" (2870 # 100) (7710 # 100)
                ONLINE "2025-01-01T10:00:31.000Z" None true.

Definition markerEquator : AgentMarker :=
  mkAgentMarker "A3" "Chitra" "Das" "9000000003" 0 (7710 # 100)
                ONLINE "2025-01-01T10:00:32.000Z" None true.

Definition overviewProps : GoogleMapProps := trackingProps true None [].

End Scenarios.

(* ===================================================================== *)
(** ** Sample data *)
(* ===================================================================== *)

Module Samples.

Import AgentTracking.

(** Sample data: the agent A1 of the snapshot scenario, with a battery
    reading, and two events about it that carry no telemetry. *)
Definition agentA1 : AgentLocation :=
  {| agentId := "A1"; agentFirstName := "Asha"; agentLastName := "Rao";
     agentMobile := "9000000001"; lastLocation := "Ward 4";
     latitude := 2861 # 100; longitude := 7720 # 100; accuracy := Some (12 # 1);
     connectionStatus := OFFLINE; lastUpdate := "2025-01-01T10:00:00.000Z";
     batteryLevel := Some (80 # 1); isCharging := Some false; isOnline := false |}.

Definition pingA1 : U.t :=
  {| U.agentId := "A1"; U.agentFirstName := "Asha"; U.agentLastName := "Rao";
     U.agentMobile := "9000000001"; U.lastLocation := "Ward 5";
     U.latitude := 28615 # 1000; U.longitude := 77205 # 1000; U.accuracy := None;
     U.connectionStatus := ONLINE; U.lastUpdate := "2025-01-01T10:00:30.000Z";
     U.batteryLevel := None; U.isCharging := None; U.isOnline := true |}.

Definition pingA2 : U.t :=
  {| U.agentId := "A2"; U.agentFirstName := "Bela"; U.agentLastName := "Nair";
     U.agentMobile := "9000000002"; U.lastLocation := "Ward 9";
     U.latitude := 2870 # 100; U.longitude := 7710 # 100; U.accuracy := None;
     U.connectionStatus := ONLINE; U.lastUpdate := "2025-01-01T10:00:31.000Z";
     U.batteryLevel := None; U.isCharging := None; U.isOnline := true |}.

(** An event whose flag disagrees with its status. *)
Definition skewedA2 : U.t :=
  {| U.agentId := "A2"; U.agentFirstName := "Bela"; U.agentLastName := "Nair";
     U.agentMobile := "9000000002"; U.lastLocation := "Ward 9";
     U.latitude := 2870 # 100; U.longitude := 7710 # 100; U.accuracy := None;
     U.connectionStatus := DISCONNECTED; U.lastUpdate := "2025-01-01T10:00:31.000Z";
     U.batteryLevel := None; U.isCharging := None; U.isOnline := true |}.

Definition statusA2 : S.t :=
  {| S.agentId := "A2"; S.status := ONLINE; S.timestamp := "2025-01-01T10:00:32.000Z" |}.

Definition receipt : string := "2025-01-01T10:00:33.000Z".

(** The tracking page of a master admin: its first render, a request that
    fails on the network, and the page after one, two and three such
    failures in a row (the first at mount, the others on the retry timer). *)
Definition firstRender : State := initialState (Some "master") receipt.

Definition networkError : JsError := mkError "TypeError" "Failed to fetch".

Definition freshWorld : World := mkWorld firstRender [] [].

Definition afterFailure1 : World :=
  mount (Some "master") receipt (Threw networkError) None false.
Definition afterFailure2 : World :=
  step firstRender (RetryTimer (Threw networkError) receipt) afterFailure1.
Definition afterFailure3 : World :=
  step firstRender (RetryTimer (Threw networkError) receipt) afterFailure2.

(** The page once the stream has reported that it is connected. *)
Definition streamUp : World :=
  step firstRender (ConnectionChange true)
       (mount (Some "master") receipt (Replied true true (Some [agentA1]) None)
              (Some (mkStats 0 1 1)) false).

(** A service with one listener whose link dropped after a successful
    connect, and six failure reports in a row. *)
Definition liveService : WebSocketService.t :=
  WebSocketService.exec
    (WebSocketService.run [WebSocketService.OnConnectionChange 1;
                           WebSocketService.Connect;
                           WebSocketService.OnConnect])
    (WebSocketService.new (Some "token")).

Definition droppedLink : WebSocketService.t :=
  WebSocketService.exec (WebSocketService.step WebSocketService.OnWebSocketClose)
                        liveService.

Definition sixFailures : list WebSocketService.Event :=
  [WebSocketService.OnWebSocketError; WebSocketService.OnWebSocketClose;
   WebSocketService.OnWebSocketClose; WebSocketService.OnStompError;
   WebSocketService.OnWebSocketClose; WebSocketService.OnWebSocketClose].

(** The map in agent-detail mode, focused on A1, with a ready widget and the
    markers of two agents some fifty metres apart. *)
Definition focusA1 : GoogleMap.LatLng := GoogleMap.mkLatLng (2861 # 100) (7720 # 100).
Definition nearA1 : GoogleMap.LatLng := GoogleMap.mkLatLng (286104 # 10000) (7720 # 100).

Definition detailProps : GoogleMap.GoogleMapProps :=
  GoogleMap.trackingProps false (Some focusA1) [].

Definition delhi : GoogleMap.Map :=
  GoogleMap.mkMap (GoogleMap.mkLatLng (286139 # 10000) (772090 # 10000)) 10 [].

Definition twoMarkers : GoogleMap.Component :=
  GoogleMap.mkComponent (Some delhi)
    [("A1", GoogleMap.mkMarker (Some focusA1)); ("A2", GoogleMap.mkMarker (Some nearA1))]
    true.

End Samples.

(* ===================================================================== *)
(** * Properties *)
(* ===================================================================== *)

(** ** Reconciliation store *)

Section StoreFacts.

Import AgentTracking Samples.

Implicit Types (store : list AgentLocation) (now : string).

Lemma eqb_absent store (id : string) :
  id ∉ ids store →
  Forall (λ agent, String.eqb (agentId agent) id = false) store.
Proof.
  intros Hid. apply Forall_forall. intros agent Hin.
  apply String.eqb_neq. intros <-. apply Hid.
  unfold ids. apply list_elem_of_fmap. by exists agent.
Qed.

(** Mapping a store in which no identifier matches changes nothing. *)
Lemma map_no_match store (id : string) (f : AgentLocation → AgentLocation) :
  id ∉ ids store →
  map (λ agent, if String.eqb (agentId agent) id then f agent else agent) store = store.
Proof.
  intros Hid. pose proof (eqb_absent store id Hid) as Hall. clear Hid.
  induction Hall as [|agent rest Hagent _ IH]; simpl; [done|].
  rewrite Hagent. by f_equal.
Qed.

Lemma find_no_match store (id : string) :
  id ∉ ids store →
  find (λ agent, String.eqb (agentId agent) id) store = None.
Proof.
  intros Hid. pose proof (eqb_absent store id Hid) as Hall. clear Hid.
  induction Hall as [|agent rest Hagent _ IH]; simpl; [done|].
  by rewrite Hagent.
Qed.

Lemma handleStatusUpdate_absent now (u : S.t) store :
  S.agentId u ∉ ids store → handleStatusUpdate now u store = store.
Proof. intros Hid. unfold handleStatusUpdate. by apply map_no_match. Qed.

Lemma handleLocationUpdate_absent now (u : U.t) store :
  U.agentId u ∉ ids store →
  handleLocationUpdate now u store = store ++ [of_update u now].
Proof.
  intros Hid. unfold handleLocationUpdate.
  rewrite map_no_match by done. by rewrite find_no_match.
Qed.

(** When the identifier is known, [find] succeeds on the mapped store and
    nothing is pushed. *)
Lemma handleLocationUpdate_present now (u : U.t) store :
  U.agentId u ∈ ids store →
  handleLocationUpdate now u store =
  map (λ agent, if String.eqb (agentId agent) (U.agentId u)
                then merge_update agent u now else agent) store.
Proof.
  intros Hid. unfold handleLocationUpdate.
  set (f := λ agent, if String.eqb (agentId agent) (U.agentId u)
                     then merge_update agent u now else agent).
  destruct (find _ (map f store)) eqn:Hfind; [done|].
  exfalso. unfold ids in Hid. apply list_elem_of_fmap in Hid as (agent & Heq & Hin).
  apply list_elem_of_In in Hin.
  pose proof (find_none _ _ Hfind (f agent) (in_map f _ _ Hin)) as Hno.
  unfold f in Hno. simpl in Hno.
  destruct (String.eqb (agentId agent) (U.agentId u)) eqn:E.
  - simpl in Hno. rewrite String.eqb_refl in Hno. done.
  - apply String.eqb_neq in E. by symmetry in Heq.
Qed.

Lemma ids_of_map_merge now (u : U.t) store :
  ids (map (λ agent, if String.eqb (agentId agent) (U.agentId u)
                     then merge_update agent u now else agent) store) = ids store.
Proof.
  unfold ids. induction store as [|agent rest IH]; [done|].
  cbn [map fmap list_fmap]. f_equal; [|apply IH].
  destruct (String.eqb _ _) eqn:E; [|done].
  apply String.eqb_eq in E. simpl. by symmetry.
Qed.

Lemma synced_cases now (u : U.t) store :
  synced_update u → Forall synced store →
  Forall synced (handleLocationUpdate now u store).
Proof.
  intros Hu Hstore. unfold handleLocationUpdate.
  set (mapped := map _ store).
  assert (Forall synced mapped) as Hmapped.
  { unfold mapped. clear mapped. induction Hstore as [|agent rest Hagent _ IH]; simpl.
    - constructor.
    - constructor; [|apply IH].
      destruct (String.eqb _ _); [apply Hu | apply Hagent]. }
  destruct (find _ mapped); [done|].
  apply Forall_app. split; [done|]. repeat constructor. apply Hu.
Qed.

Lemma handleStatusUpdate_synced now (u : S.t) store :
  Forall synced store → Forall synced (handleStatusUpdate now u store).
Proof.
  intros Hstore. unfold handleStatusUpdate.
  induction Hstore as [|agent rest Hagent _ IH]; simpl; constructor; [|apply IH].
  destruct (String.eqb _ _); [reflexivity | apply Hagent].
Qed.

(** C1, as stated, fails: a location event for the unseen agent A2 that
    says [isOnline = true] with [connectionStatus = DISCONNECTED] is stored
    as it is, and the stored record has [isOnline] different from
    [connectionStatus == 'ONLINE']. *)
Lemma C1_location_event_stored_unsynced :
  ¬ Forall synced (handleLocationUpdate receipt skewedA2 [agentA1]).
Proof.
  intros Hall. apply Forall_forall with (x := of_update skewedA2 receipt) in Hall.
  - unfold synced in Hall. simpl in Hall. discriminate Hall.
  - vm_compute. right. left.
Qed.

(** C1, amended: the status path recomputes [isOnline] from the status, and
    the location and snapshot paths store the flag and the status that they
    are given.  So a store whose records are synchronised stays synchronised
    under a status update, under a location update whose event is itself
    synchronised, and under a snapshot whose records are; and the record hit
    by a status update is synchronised whatever it was before. *)
Theorem C1_isOnline_kept_in_sync now store :
  Forall synced store →
  (∀ u : S.t, Forall synced (handleStatusUpdate now u store)) ∧
  (∀ u : U.t, synced_update u → Forall synced (handleLocationUpdate now u store)) ∧
  (∀ (render : State) isRetryAttempt ok success data msg w,
      Forall synced (default [] data) →
      Forall synced (agents (hooks w)) →
      Forall synced
        (agents (hooks (loadAgentLocations render isRetryAttempt
                          (Replied ok success data msg) now w)))) ∧
  (∀ (u : S.t) (agent : AgentLocation), synced (set_status agent u now)).
Proof.
  intros Hstore. repeat split.
  - intros u. by apply handleStatusUpdate_synced.
  - intros u Hu. by apply synced_cases.
  - intros render isRetryAttempt ok success data msg w Hdata Hw.
    unfold loadAgentLocations, loadAgentLocations_catch.
    destruct isRetryAttempt, (ok && success),
      (retryCount render <? MAX_RETRY_ATTEMPTS)%Z; simpl; try done; constructor.
Qed.

Lemma C1_isOnline_kept_in_sync_witness :
  Forall synced (handleStatusUpdate receipt statusA2 [agentA1]) ∧
  Forall synced (handleLocationUpdate receipt pingA1 [agentA1]).
Proof.
  assert (Forall synced [agentA1]) as Hstore by (repeat constructor).
  destruct (C1_isOnline_kept_in_sync receipt [agentA1] Hstore) as (Hs & Hl & _).
  split; [apply Hs | apply Hl; reflexivity].
Defined.

(** C7: the merge of a location event into the stored record of the same
    agent keeps, for every key that the event does not carry (accuracy,
    battery level, charging flag), the value stored before; the record stays
    at its place and no record is added. *)
Theorem C7_merge_keeps_absent_fields now (u : U.t) store (i : nat) (agent : AgentLocation) :
  store !! i = Some agent →
  agentId agent = U.agentId u →
  ∃ merged,
    handleLocationUpdate now u store !! i = Some merged ∧
    merged = merge_update agent u now ∧
    (U.batteryLevel u = None → batteryLevel merged = batteryLevel agent) ∧
    (U.accuracy u = None → accuracy merged = accuracy agent) ∧
    (U.isCharging u = None → isCharging merged = isCharging agent) ∧
    length (handleLocationUpdate now u store) = length store.
Proof.
  intros Hi Hid.
  assert (U.agentId u ∈ ids store) as Hin.
  { unfold ids. apply list_elem_of_fmap. exists agent. split; [done|].
    by eapply list_elem_of_lookup_2. }
  rewrite handleLocationUpdate_present by done.
  exists (merge_update agent u now). repeat split.
  - change (map ?f store) with (f <$> store). rewrite list_lookup_fmap, Hi. simpl.
    by rewrite Hid, String.eqb_refl.
  - intros H. simpl. by rewrite H.
  - intros H. simpl. by rewrite H.
  - intros H. simpl. by rewrite H.
  - by rewrite length_map.
Qed.

Lemma C7_merge_keeps_absent_fields_witness :
  ∃ merged,
    handleLocationUpdate receipt pingA1 [agentA1] !! 0%nat = Some merged ∧
    batteryLevel merged = Some (80 # 1).
Proof.
  destruct (C7_merge_keeps_absent_fields receipt pingA1 [agentA1] 0 agentA1
              eq_refl eq_refl) as (merged & Hat & _ & Hbattery & _).
  exists merged. split; [exact Hat | exact (Hbattery eq_refl)].
Defined.

(** C8: in a store with pairwise distinct identifiers, a status event for
    an identifier that is not stored leaves the store as it is, and a
    location event for such an identifier appends exactly one record: the
    store grows by one and the identifiers stay pairwise distinct. *)
Theorem C8_unknown_agent now store :
  NoDup (ids store) →
  (∀ u : S.t, S.agentId u ∉ ids store →
     handleStatusUpdate now u store = store) ∧
  (∀ u : U.t, U.agentId u ∉ ids store →
     handleLocationUpdate now u store = store ++ [of_update u now] ∧
     length (handleLocationUpdate now u store) = S (length store) ∧
     NoDup (ids (handleLocationUpdate now u store))).
Proof.
  intros Hnodup. split.
  - intros u Hid. by apply handleStatusUpdate_absent.
  - intros u Hid. rewrite handleLocationUpdate_absent by done.
    split; [done|]. split.
    + rewrite length_app. simpl. lia.
    + unfold ids in *. rewrite fmap_app. apply NoDup_app. split; [done|]. split.
      * intros id Hin Hnew. simpl in Hnew. apply list_elem_of_singleton in Hnew.
        subst id. by apply Hid.
      * simpl. apply NoDup_singleton.
Qed.

Lemma C8_unknown_agent_witness :
  handleStatusUpdate receipt statusA2 [agentA1] = [agentA1] ∧
  length (handleLocationUpdate receipt pingA2 [agentA1]) = 2%nat.
Proof.
  assert (NoDup (ids [agentA1])) as Hnodup.
  { apply NoDup_singleton. }
  assert ("A2" ∉ ids [agentA1]) as Hfresh.
  { intros Hin. apply list_elem_of_singleton in Hin. discriminate Hin. }
  destruct (C8_unknown_agent receipt [agentA1] Hnodup) as [Hstatus Hlocation].
  split.
  - apply Hstatus. exact Hfresh.
  - destruct (Hlocation pingA2 Hfresh) as (_ & Hlen & _). exact Hlen.
Defined.

End StoreFacts.

(** ** Snapshot loader and fallback poll *)

Section LoaderFacts.

Import AgentTracking Samples.

Local Open Scope Z_scope.

Implicit Types (render : State) (w : World) (error : JsError) (now : string).

(** A failure that is retried: one timer, no notification. *)
Lemma catch_retries render error w :
  retryCount render < MAX_RETRY_ATTEMPTS →
  name error ≠ "AbortError" →
  loadAgentLocations_catch render error w =
  setTimeout (RETRY_DELAY * (retryCount render + 1)) render
             (update (setRetryCount (λ prev, prev + 1)) w).
Proof.
  intros Hcount Hname. unfold loadAgentLocations_catch.
  apply Z.ltb_lt in Hcount. apply String.eqb_neq in Hname.
  by rewrite Hcount, Hname.
Qed.

(** A failure that is given up on: one notification, no timer. *)
Lemma catch_gives_up render error w :
  MAX_RETRY_ATTEMPTS ≤ retryCount render ∨ name error = "AbortError" →
  loadAgentLocations_catch render error w =
  update (setAgents (λ _, []))
    (emit (ShowError "Connection Error"
             (Some (if String.eqb (name error) "AbortError" then timeoutMessage
                    else or_default (Some (message error))
                                    "Failed to load agent locations"))) w).
Proof.
  intros Hcase. unfold loadAgentLocations_catch.
  destruct Hcase as [Hcount | Hname].
  - apply Z.ltb_ge in Hcount. by rewrite Hcount.
  - apply String.eqb_eq in Hname. rewrite Hname. by rewrite andb_false_r.
Qed.

(** C3, as stated, fails: at mount, a request that fails on the network is
    retried (a timer is set, nothing is shown), while a request aborted by
    the timeout is not (no timer, the error is shown at once). *)
Lemma C3_timeout_is_not_retried :
  (timers (loadAgentLocations firstRender false (Threw networkError) receipt freshWorld)
     = [mkTimer 2000 firstRender] ∧
   errorsShown (loadAgentLocations firstRender false (Threw networkError) receipt freshWorld)
     = []) ∧
  (timers (loadAgentLocations firstRender false timedOut receipt freshWorld) = [] ∧
   errorsShown (loadAgentLocations firstRender false timedOut receipt freshWorld)
     = [ShowError "Connection Error" (Some timeoutMessage)]).
Proof. vm_compute. repeat split. Qed.

(** C3, amended: a snapshot load aborted by the timeout is never retried.
    Whatever the retry count and whether or not the load is itself a retry,
    it sets no timer, shows the error with the time-out message at once and
    empties the store.  A failure of another kind gets this treatment, with
    its own message, only when the retry count of the loader is 3 or more. *)
Theorem C3_timeout_surfaces_at_once render (isRetryAttempt : bool) now w :
  (∀ text,
     let w' := loadAgentLocations render isRetryAttempt
                 (Threw (mkError "AbortError" text)) now w in
     timers w' = timers w ∧
     trace w' = trace w ++ [Fetch (agentsEndpoint render);
                            ShowError "Connection Error" (Some timeoutMessage)] ∧
     agents (hooks w') = []) ∧
  (∀ error, name error ≠ "AbortError" → MAX_RETRY_ATTEMPTS ≤ retryCount render →
     let w' := loadAgentLocations render isRetryAttempt (Threw error) now w in
     timers w' = timers w ∧
     trace w' = trace w ++ [Fetch (agentsEndpoint render);
                            ShowError "Connection Error"
                              (Some (or_default (Some (message error))
                                       "Failed to load agent locations"))] ∧
     agents (hooks w') = []).
Proof.
  split.
  - intros text. unfold loadAgentLocations. cbv zeta.
    rewrite catch_gives_up by (right; reflexivity).
    destruct isRetryAttempt; simpl; by rewrite <- app_assoc.
  - intros error Hname Hcount. unfold loadAgentLocations. cbv zeta.
    rewrite catch_gives_up by (by left).
    apply String.eqb_neq in Hname. rewrite Hname.
    destruct isRetryAttempt; simpl; by rewrite <- app_assoc.
Qed.

Lemma C3_timeout_surfaces_at_once_witness :
  timers (loadAgentLocations (setRetryCount (λ _, 3) firstRender) true
            (Threw networkError) receipt freshWorld) = [] ∧
  agents (hooks (loadAgentLocations (setRetryCount (λ _, 3) firstRender) true
                   (Threw networkError) receipt freshWorld)) = [].
Proof.
  destruct (C3_timeout_surfaces_at_once (setRetryCount (λ _, 3) firstRender)
              true receipt freshWorld) as [_ Hother].
  destruct (Hother networkError) as (Htimers & _ & Hagents).
  - discriminate.
  - vm_compute. discriminate.
  - split; [exact Htimers | exact Hagents].
Defined.

(** The whole run of a load whose failure is retried. *)
Lemma load_retried render (isRetryAttempt : bool) error now w :
  retryCount render < MAX_RETRY_ATTEMPTS →
  name error ≠ "AbortError" →
  let w' := loadAgentLocations render isRetryAttempt (Threw error) now w in
  trace w' = trace w ++ [Fetch (agentsEndpoint render);
                         SetTimeout (RETRY_DELAY * (retryCount render + 1))] ∧
  timers w' = timers w ++ [mkTimer (RETRY_DELAY * (retryCount render + 1)) render].
Proof.
  intros Hcount Hname. unfold loadAgentLocations. cbv zeta.
  rewrite catch_retries by done.
  destruct isRetryAttempt; simpl; by rewrite <- app_assoc.
Qed.

(** C4, as stated, fails.  After three failures in a row, the first at
    mount and the next two on the retry timer, no error has been shown;
    three retries have been set, each 2000 ms ahead, and the last is still
    pending.  A third failure handled with a retry count of 2 would be
    retried as well, 6000 ms ahead.  And a first failure that is a timeout
    shows the error at once. *)
Lemma C4_no_error_after_third_failure :
  errorsShown afterFailure3 = [] ∧
  delaysScheduled afterFailure3 = [2000; 2000; 2000] ∧
  timers afterFailure3 = [mkTimer 2000 firstRender] ∧
  errorsShown (loadAgentLocations (setRetryCount (λ _, 2) firstRender) true
                 (Threw networkError) receipt freshWorld) = [] ∧
  delaysScheduled (loadAgentLocations (setRetryCount (λ _, 2) firstRender) true
                     (Threw networkError) receipt freshWorld) = [6000] ∧
  errorsShown (mount (Some "master") receipt timedOut None false)
    = [ShowError "Connection Error" (Some timeoutMessage)].
Proof. vm_compute. repeat split. Qed.

(** C4, amended: a failed snapshot load that is not a timeout and that is
    handled with a retry count below 3 shows no error and sets one retry,
    [(retryCount + 1) * 2000] ms ahead, where [retryCount] is the count of
    the render whose loader runs; the error is shown, and no retry set, by a
    failure handled with a retry count of 3 or more.  After mount, none of
    the first three failures in a row shows an error. *)
Theorem C4_retry_policy :
  (∀ render (isRetryAttempt : bool) error now w,
     retryCount render < MAX_RETRY_ATTEMPTS →
     name error ≠ "AbortError" →
     let w' := loadAgentLocations render isRetryAttempt (Threw error) now w in
     errorsShown w' = errorsShown w ∧
     delaysScheduled w' = delaysScheduled w ++ [(retryCount render + 1) * 2000] ∧
     timers w' = timers w ++ [mkTimer ((retryCount render + 1) * 2000) render]) ∧
  (∀ render (isRetryAttempt : bool) error now w,
     MAX_RETRY_ATTEMPTS ≤ retryCount render →
     let w' := loadAgentLocations render isRetryAttempt (Threw error) now w in
     length (errorsShown w') = S (length (errorsShown w)) ∧
     delaysScheduled w' = delaysScheduled w ∧
     timers w' = timers w) ∧
  (∀ role now statistics (connected : bool) e1 e2 e3 t2 t3,
     name e1 ≠ "AbortError" → name e2 ≠ "AbortError" → name e3 ≠ "AbortError" →
     let first := initialState role now in
     let w1 := mount role now (Threw e1) statistics connected in
     let w2 := step first (RetryTimer (Threw e2) t2) w1 in
     let w3 := step first (RetryTimer (Threw e3) t3) w2 in
     errorsShown w1 = [] ∧ errorsShown w2 = [] ∧ errorsShown w3 = [] ∧
     length (timers w3) = 1%nat).
Proof.
  split; [|split].
  - intros render isRetryAttempt error now w Hcount Hname. cbv zeta.
    destruct (load_retried render isRetryAttempt error now w Hcount Hname)
      as [Htrace Htimers].
    replace ((retryCount render + 1) * 2000)
      with (RETRY_DELAY * (retryCount render + 1)) by (unfold RETRY_DELAY; lia).
    split; [|split].
    + unfold errorsShown. rewrite Htrace, List.filter_app. simpl. apply app_nil_r.
    + unfold delaysScheduled. rewrite Htrace, omap_app. reflexivity.
    + exact Htimers.
  - intros render isRetryAttempt error now w Hcount. cbv zeta.
    unfold loadAgentLocations. rewrite catch_gives_up by (by left).
    unfold errorsShown, delaysScheduled.
    destruct isRetryAttempt; simpl;
      rewrite <- app_assoc, List.filter_app, omap_app; simpl;
      rewrite length_app, app_nil_r; simpl; (split; [lia | done]).
  - intros role now statistics connected e1 e2 e3 t2 t3 H1 H2 H3. cbv zeta.
    set (first := initialState role now).
    assert (retryCount first < MAX_RETRY_ATTEMPTS) as Hcount by (vm_compute; done).
    pose proof (load_retried first false e1 now (mkWorld first [] []) Hcount H1)
      as [Htrace1 Htimers1].
    unfold mount. fold first.
    set (l1 := loadAgentLocations first false (Threw e1) now (mkWorld first [] [])) in *.
    simpl in Htrace1, Htimers1.
    set (w1 := update (setWsConnected connected) (loadLocationStats first statistics l1)).
    assert (timers w1 = [mkTimer (RETRY_DELAY * (retryCount first + 1)) first]) as Ht1.
    { unfold w1, loadLocationStats. destruct statistics; simpl; exact Htimers1. }
    assert (errorsShown w1 = []) as He1.
    { unfold w1, loadLocationStats, errorsShown.
      destruct statistics; simpl; rewrite List.filter_app, Htrace1; reflexivity. }
    assert (∀ w e t, timers w = [mkTimer (RETRY_DELAY * (retryCount first + 1)) first] →
                     errorsShown w = [] → name e ≠ "AbortError" →
                     timers (step first (RetryTimer (Threw e) t) w)
                       = [mkTimer (RETRY_DELAY * (retryCount first + 1)) first] ∧
                     errorsShown (step first (RetryTimer (Threw e) t) w) = []) as Hstep.
    { intros w e t Ht He Hname. simpl. rewrite Ht. simpl closure.
      pose proof (load_retried first true e t (mkWorld (hooks w) [] (trace w))
                    Hcount Hname) as [Htrace Htimers].
      split; [exact Htimers|].
      unfold errorsShown in *. rewrite Htrace. simpl trace.
      rewrite List.filter_app, He. reflexivity. }
    destruct (Hstep w1 e2 t2 Ht1 He1 H2) as [Ht2 He2].
    destruct (Hstep _ e3 t3 Ht2 He2 H3) as [Ht3 He3].
    repeat split; try done. by rewrite Ht3.
Qed.

Lemma C4_retry_policy_witness :
  errorsShown (loadAgentLocations firstRender false (Threw networkError) receipt freshWorld)
    = [] ∧
  delaysScheduled (loadAgentLocations firstRender false (Threw networkError) receipt
                     freshWorld) = [2000].
Proof.
  destruct C4_retry_policy as [Hretry _].
  destruct (Hretry firstRender false networkError receipt freshWorld)
    as (Herrors & Hdelays & _).
  - vm_compute. reflexivity.
  - discriminate.
  - split; [exact Herrors | exact Hdelays].
Defined.

(** C10, evaluated on the code: the callback of the 30 second interval
    reads [wsConnected] as the first render bound it, which is [false], so a
    tick issues the snapshot request and the statistics request whatever
    the connection state is by then.  It does so on the page whose stream
    has just connected and which shows [wsConnected = true]. *)
Theorem C10_poll_runs_while_connected :
  (∀ role now0 snapshot statistics now w,
     let first := initialState role now0 in
     let w' := step first (PollTick snapshot statistics now) w in
     ∃ between,
       trace w' = trace w ++ [Fetch (agentsEndpoint first)] ++ between
                          ++ [Fetch (statsEndpoint first)]) ∧
  (wsConnected (hooks streamUp) = true ∧
   trace (step firstRender (PollTick (Replied true true (Some [agentA1]) None)
                                     (Some (mkStats 0 1 1)) receipt) streamUp)
   = trace streamUp ++ [Fetch "/api/location/all"; Fetch "/api/location/stats"]).
Proof.
  split; [|vm_compute; split; reflexivity].
  intros role now0 snapshot statistics now w.
  cbv zeta. unfold step, pollTick.
  change (negb (wsConnected (initialState role now0))) with true. cbv iota.
  set (first := initialState role now0).
  set (loaded := loadAgentLocations first false snapshot now w).
  assert (∃ between,
            trace loaded = trace w ++ [Fetch (agentsEndpoint first)] ++ between)
    as [between Hload].
  { unfold loaded, loadAgentLocations, loadAgentLocations_catch.
    destruct snapshot as [error | ok success data msg]; simpl.
    - destruct (negb _); simpl; eexists; rewrite <- app_assoc; simpl; reflexivity.
    - destruct (ok && success); simpl.
      + exists []. reflexivity.
      + eexists; rewrite <- app_assoc; simpl; reflexivity. }
  exists between. clearbody loaded. unfold loadLocationStats.
  destruct statistics; simpl; rewrite Hload; by rewrite <- !app_assoc.
Qed.

End LoaderFacts.

(** ** Connection manager *)

Section ServiceFacts.

Import WebSocketService Samples.

Local Open Scope Z_scope.
Local Open Scope ws_scope.

Implicit Types (s : WebSocketService.t) (e : Event) (es : list Event).

(** A loop whose body only emits leaves the state alone. *)
Lemma forEach_emit {A} (l : list A) (f : A → Effect) s :
  forEach l (λ x, emit (f x)) s = (tt, s, f <$> l).
Proof.
  revert s. induction l as [|x rest IH]; intros s; [done|].
  cbn [forEach]. unfold bind, emit. rewrite IH. reflexivity.
Qed.

Lemma notify_eq b s :
  notifyConnectionCallbacks b s = (tt, s, (λ c, Notify c b) <$> connectionCallbacks s).
Proof.
  unfold notifyConnectionCallbacks, bind, get. rewrite forEach_emit. reflexivity.
Qed.

(** [handleReconnect] in closed form. *)
Lemma handleReconnect_eq s :
  handleReconnect s =
  if reconnectAttempts s >=? maxReconnectAttempts then (tt, s, [])
  else
    let d := Z.min (reconnectDelay s * 2 ^ (reconnectAttempts s + 1 - 1)) maxReconnectDelay in
    (tt, set_pendingTimers (pendingTimers s ++ [d])
           (set_reconnectAttempts (reconnectAttempts s + 1) s), [SetTimeout d]).
Proof.
  unfold handleReconnect, bind, get. destruct (_ >=? _); reflexivity.
Qed.

Lemma delaysOf_notify (b : bool) (cbs : list nat) :
  delaysOf ((λ c, Notify c b) <$> cbs) = [].
Proof. induction cbs as [|c rest IH]; [done|]. exact IH. Qed.

Lemma delaysOf_app (out1 out2 : list Effect) :
  delaysOf (out1 ++ out2) = delaysOf out1 ++ delaysOf out2.
Proof. apply omap_app. Qed.

(** Unfolding of the methods down to state and trace. *)
Ltac ws_unfold :=
  unfold exec, effects, step, withClient, onFailure, onDisconnect, onConnect,
    onConnectionChange, disconnect, connect, timerCallback, setupClient,
    subscribeToTopics, subscribe, activate, deactivate, setTimeout,
    bind, get, modify, ret, emit.

(** The three failure handlers: notify, then [handleReconnect]. *)
Ltac ws_failure :=
  ws_unfold; simpl; rewrite notify_eq; simpl; rewrite handleReconnect_eq; simpl;
  rewrite Z.geb_leb; unfold maxReconnectAttempts, maxReconnectDelay, backoff;
  match goal with
  | |- context [?a <? 5] =>
      destruct (Z.ltb_spec a 5); destruct (Z.leb_spec 5 a); try lia; simpl;
      rewrite ?delaysOf_app, ?delaysOf_notify; simpl; eauto
  end.

(** One event other than a successful connect: the client stays, the base
    delay stays 1000, and a timer is set exactly by a failure report that
    finds fewer than 5 attempts counted. *)
Lemma step_backoff e s :
  isOnConnect e = false →
  is_Some (client s) →
  reconnectDelay s = 1000 →
  let s' := exec (step e) s in
  is_Some (client s') ∧ reconnectDelay s' = 1000 ∧
  if isFailure e && (reconnectAttempts s <? maxReconnectAttempts)
  then reconnectAttempts s' = reconnectAttempts s + 1 ∧
       delaysOf (effects (step e) s) = [backoff (reconnectAttempts s + 1)]
  else reconnectAttempts s' = reconnectAttempts s ∧
       delaysOf (effects (step e) s) = [].
Proof.
  intros He [c Hc] Hd. cbv zeta.
  destruct s as [tok cl conn att del cbs tm]. simpl in Hc, Hd. subst cl del.
  destruct e; try discriminate He; simpl isFailure; cbv iota; simpl andb.
  - ws_unfold. destruct conn; simpl; eauto.
  - ws_unfold. simpl. rewrite notify_eq. simpl. rewrite delaysOf_notify. eauto.
  - ws_unfold. simpl. eauto.
  - ws_unfold. simpl. rewrite notify_eq. simpl. rewrite delaysOf_notify. eauto.
  - ws_failure.
  - ws_failure.
  - ws_failure.
  - ws_unfold. simpl. destruct (tm !! i); simpl; [destruct conn; simpl|]; eauto.
Qed.

(** A run, one event at a time. *)
Lemma run_cons e es s :
  exec (run (e :: es)) s = exec (run es) (exec (step e) s) ∧
  effects (run (e :: es)) s = effects (step e) s ++ effects (run es) (exec (step e) s).
Proof.
  unfold run, exec, effects. cbn [forEach]. unfold bind.
  destruct (step e s) as [[[] s1] out1]. simpl.
  destruct (forEach es step s1) as [[[] s2] out2]. done.
Qed.

(** The schedule from any count of attempts between 0 and 5. *)
Lemma backoff_from es : ∀ s,
  is_Some (client s) → reconnectDelay s = 1000 →
  0 ≤ reconnectAttempts s ≤ 5 → noOnConnect es = true →
  delaysOf (effects (run es) s) =
  backoff <$> seqZ (reconnectAttempts s + 1)
                   (Z.min (failures es) (5 - reconnectAttempts s)).
Proof.
  induction es as [|e es IH]; intros s Hc Hd Ha Hes.
  - unfold failures. simpl. rewrite Z.min_l by lia. reflexivity.
  - simpl in Hes. apply andb_prop in Hes as [He Hes]. apply negb_true_iff in He.
    destruct (run_cons e es s) as [_ ->].
    destruct (step_backoff e s He Hc Hd) as (Hc' & Hd' & Hcase).
    rewrite delaysOf_app. unfold failures. simpl List.filter.
    destruct (isFailure e); simpl andb in Hcase; cbv iota in Hcase.
    + unfold maxReconnectAttempts in Hcase.
      destruct (Z.ltb_spec (reconnectAttempts s) 5) as [Hlt | Hge];
        destruct Hcase as [Ha' Hout]; rewrite Hout.
      * rewrite IH by (done || lia). rewrite Ha'. simpl length.
        rewrite Nat2Z.inj_succ.
        rewrite (seqZ_cons (reconnectAttempts s + 1)) by lia.
        rewrite fmap_cons. cbn [app]. do 2 f_equal.
        unfold failures. f_equal; lia.
      * rewrite IH by (done || lia). rewrite Ha'. simpl length.
        unfold failures. rewrite !Z.min_r by lia.
        replace (5 - reconnectAttempts s) with 0 by lia. reflexivity.
    + destruct Hcase as [Ha' Hout]. rewrite Hout, IH by (done || lia).
      rewrite Ha'. reflexivity.
Qed.

(** [reconnectDelay] is only ever assigned 1000. *)
Lemma step_reconnectDelay e s :
  reconnectDelay s = 1000 → reconnectDelay (exec (step e) s) = 1000.
Proof.
  intros Hd. destruct s as [tok cl conn att del cbs tm]. simpl in Hd. subst del.
  destruct cl as [c|], conn, e; ws_unfold; simpl;
    rewrite ?notify_eq; simpl; rewrite ?handleReconnect_eq; simpl;
    try reflexivity;
    try (destruct (att >=? maxReconnectAttempts); reflexivity);
    try (destruct (tm !! i); simpl; try reflexivity);
    destruct tok; reflexivity.
Qed.

Lemma reachable_reconnectDelay stored history :
  reconnectDelay (exec (run history) (new stored)) = 1000.
Proof.
  assert (reconnectDelay (new stored) = 1000) as Hnew by (by destruct stored).
  revert Hnew. generalize (new stored).
  induction history as [|e es IH]; intros s Hs; [exact Hs|].
  destruct (run_cons e es s) as [-> _]. apply IH. by apply step_reconnectDelay.
Qed.

(** C2: from a state of the service in which no reconnect has been counted
    (a new service, or one whose last connect succeeded), whatever happens
    next short of a successful connect, the delays of the reconnects that
    get scheduled are [min(1000 * 2^(N-1), 30000)] for N = 1, 2, ... up to
    the number of failures reported, and at most 5 of them: once 5 attempts
    are counted, [handleReconnect] schedules nothing and changes nothing.  A
    successful connect puts the counter back to 0. *)
Theorem C2_backoff_schedule :
  (∀ stored history es,
     let s := exec (run history) (new stored) in
     is_Some (client s) →
     reconnectAttempts s = 0 →
     noOnConnect es = true →
     delaysOf (effects (run es) s) = backoff <$> seqZ 1 (Z.min (failures es) 5)) ∧
  (∀ s, maxReconnectAttempts ≤ reconnectAttempts s →
        effects handleReconnect s = [] ∧ exec handleReconnect s = s) ∧
  (∀ s, reconnectAttempts (exec onConnect s) = 0 ∧
        reconnectDelay (exec onConnect s) = 1000).
Proof.
  split; [|split].
  - intros stored history es s Hc Ha Hes.
    rewrite (backoff_from es s Hc (reachable_reconnectDelay stored history))
      by (done || lia).
    rewrite Ha. reflexivity.
  - intros s Hmax. unfold effects, exec. rewrite handleReconnect_eq.
    apply Z.geb_le in Hmax. rewrite Hmax. done.
  - intros s. destruct s as [tok cl conn att del cbs tm].
    ws_unfold. simpl. rewrite notify_eq. simpl.
    destruct cl; simpl; done.
Qed.

(** C6: [connect()] on a connected service returns at once: no effect (no
    activation, no subscription, no notification) and the same state, so the
    subscriptions of the client, [isConnected] and the reconnect counter are
    what they were. *)
Theorem C6_connect_when_connected s :
  isConnected s = true →
  connect s = (tt, s, []) ∧
  effects connect s = [] ∧
  client (exec connect s) = client s ∧
  isConnected (exec connect s) = isConnected s ∧
  reconnectAttempts (exec connect s) = reconnectAttempts s.
Proof.
  intros Hconn. assert (connect s = (tt, s, [])) as Heq.
  { unfold connect, bind, get. rewrite Hconn. reflexivity. }
  unfold exec, effects. rewrite Heq. done.
Qed.

(** C5, as stated, fails: a reconnect scheduled when the link dropped is
    still pending after [disconnect()], and when its timer runs it activates
    the client again, with no call of [connect()] by anyone else. *)
Lemma C5_reconnect_fires_after_disconnect :
  pendingTimers droppedLink = [1000] ∧
  pendingTimers (exec disconnect droppedLink) = [1000] ∧
  effects (step (TimerFires 0)) (exec disconnect droppedLink) = [Activate] ∧
  active <$> client (exec (run [Disconnect; TimerFires 0]) droppedLink) = Some true.
Proof. vm_compute. repeat split. Qed.

(** C5, amended: without a client [disconnect()] does nothing.  With one, it
    deactivates it, sets [isConnected] to false and tells every connection
    listener that the connection is down; the pending reconnect timers stay
    as they are, and each of them, when it runs after the disconnect,
    activates the client again.  A second [disconnect()] leaves the state of
    the service as the first one left it. *)
Theorem C5_disconnect_keeps_timers :
  (∀ s, client s = None → disconnect s = (tt, s, [])) ∧
  (∀ s c, client s = Some c →
     let s' := exec disconnect s in
     client s' = Some (mkClient false (subscriptions c)) ∧
     isConnected s' = false ∧
     effects disconnect s = Deactivate :: ((λ cb, Notify cb false) <$> connectionCallbacks s) ∧
     pendingTimers s' = pendingTimers s ∧
     exec disconnect s' = s' ∧
     (∀ i d, pendingTimers s !! i = Some d →
        effects (step (TimerFires i)) s' = [Activate] ∧
        client (exec (step (TimerFires i)) s') = Some (mkClient true (subscriptions c)))).
Proof.
  split.
  - intros s Hc. unfold disconnect, bind, get. by rewrite Hc.
  - intros s c Hc. cbv zeta.
    destruct s as [tok cl conn att del cbs tm]. simpl in Hc. subst cl.
    ws_unfold. simpl. rewrite notify_eq. simpl. repeat split.
    all: rewrite ?notify_eq; try reflexivity.
    all: match goal with H : _ !! _ = Some _ |- _ => rewrite H end.
    all: simpl; ws_unfold; reflexivity.
Qed.

Lemma C2_backoff_schedule_witness :
  delaysOf (effects (run sixFailures) (new (Some "token")))
  = [1000; 2000; 4000; 8000; 16000].
Proof.
  destruct C2_backoff_schedule as (Hschedule & _ & _).
  apply (Hschedule (Some "token") [] sixFailures); [by eexists | reflexivity..].
Defined.

Lemma C6_connect_when_connected_witness :
  connect liveService = (tt, liveService, []).
Proof.
  destruct (C6_connect_when_connected liveService) as [Hsame _];
    [reflexivity | exact Hsame].
Defined.

Lemma C5_disconnect_keeps_timers_witness :
  isConnected (exec disconnect droppedLink) = false ∧
  pendingTimers (exec disconnect droppedLink) = pendingTimers droppedLink ∧
  exec disconnect (exec disconnect droppedLink) = exec disconnect droppedLink.
Proof.
  destruct C5_disconnect_keeps_timers as [_ Hclient].
  destruct (Hclient droppedLink
              (mkClient true ["/topic/location/updates"; "/topic/location/status";
                              "/topic/location/disconnection"]) eq_refl)
    as (_ & Hdown & _ & Htimers & Hagain & _).
  split; [exact Hdown | split; [exact Htimers | exact Hagain]].
Defined.

End ServiceFacts.

(** ** Map viewport *)

Section MapFacts.

Import GoogleMap Samples.

Variable fitView : LatLngBounds → LatLng * number.

Implicit Types (m : Map) (c : Component) (props : GoogleMapProps).

Lemma clampZoom_le (limit : number) m : (getZoom (clampZoom limit m) <= limit)%Q.
Proof.
  unfold clampZoom. destruct (Qle_bool (getZoom m) limit) eqn:E.
  - by apply Qle_bool_iff.
  - simpl. apply Qle_refl.
Qed.

Lemma clampZoom_center (limit : number) m :
  getCenter (clampZoom limit m) = getCenter m.
Proof. unfold clampZoom. by destruct (Qle_bool _ _). Qed.

Lemma boundsChanged_last (limit : number) m :
  boundsChanged (addListenerOnce limit m) = clampZoom limit (boundsChanged m).
Proof. unfold boundsChanged, addListenerOnce. simpl. by rewrite fold_left_app. Qed.

Lemma boundsChanged_center m : getCenter (boundsChanged m) = getCenter m.
Proof.
  unfold boundsChanged.
  change (getCenter m) with (getCenter (mkMap (getCenter m) (getZoom m) [])) at 2.
  generalize (mkMap (getCenter m) (getZoom m) []).
  induction (boundsChangedOnce m) as [|limit rest IH]; intros m0; [done|].
  simpl. rewrite IH. apply clampZoom_center.
Qed.

(** With one marker on a ready map, the effect centres the map on it at
    zoom 15, whatever the props. *)
Lemma fitEffect_single props m (id : string) (position : LatLng) (initial : bool) :
  map (fitEffect fitView true props
         (mkComponent (Some m) [(id, mkMarker (Some position))] initial))
  = Some (setZoom 15 (setCenter position m)).
Proof. reflexivity. Qed.

(** With two or more positioned markers on a ready map, the effect fits the
    viewport to the bounds of all of them, and once the widget has reported
    the change the zoom is at most 16, whatever the props. *)
Lemma fitEffect_many props c m :
  map c = Some m →
  (1 < length (omap (λ entry, getPosition entry.2) (markersRef c)))%nat →
  let bounds := omap (λ entry, getPosition entry.2) (markersRef c) in
  map (fitEffect fitView true props c)
    = Some (addListenerOnce 16 (fitBounds fitView bounds m)) ∧
  ∃ settled,
    map (fitAndSettle fitView true props c) = Some settled ∧
    getCenter settled = (fitView bounds).1 ∧
    (getZoom settled <= 16)%Q.
Proof.
  intros Hmap Hmany. cbv zeta.
  assert (map (fitEffect fitView true props c)
          = Some (addListenerOnce 16
                    (fitBounds fitView (omap (λ entry, getPosition entry.2) (markersRef c)) m)))
    as Hfit.
  { unfold fitEffect. rewrite Hmap.
    destruct (markersRef c) as [|entry rest] eqn:Hmarkers; [simpl in Hmany; lia|].
    rewrite <- Hmarkers in *. rewrite Hmarkers at 1. simpl orb. cbv iota.
    set (bounds := omap _ _) in *.
    destruct (Nat.eqb_spec (length bounds) 1) as [Hone | _]; [lia|].
    destruct (Nat.ltb_spec 1 (length bounds)) as [_ | Hle]; [|lia].
    reflexivity. }
  split; [exact Hfit|].
  unfold fitAndSettle. simpl map. rewrite Hfit. simpl option_map.
  eexists. split; [reflexivity|]. rewrite boundsChanged_last. split.
  - rewrite clampZoom_center, boundsChanged_center. reflexivity.
  - apply clampZoom_le.
Qed.

(** C9, evaluated on the code: the viewport effect reads no prop, so it
    does the same in agent-detail mode as in overview mode.  With the props
    that the tracking page passes while an agent is focused
    ([autoFitBounds = false]) and two markers on a ready map, it fits the
    viewport to the bounds of both markers. *)
Theorem C9_fit_runs_in_detail_mode :
  autoFitBounds detailProps = Some false ∧
  map (fitEffect fitView true detailProps twoMarkers)
    = Some (addListenerOnce 16 (fitBounds fitView [focusA1; nearA1] delhi)) ∧
  ∀ props props' c (google : bool),
    fitEffect fitView google props c = fitEffect fitView google props' c.
Proof. repeat split. Qed.

End MapFacts.

(** ** Connection manager: listeners, invariants, timers *)

Section ServiceMore.

Import WebSocketService Listeners.

Local Open Scope Z_scope.
Local Open Scope ws_scope.

Implicit Types (s : WebSocketService.t) (e : Event) (es : list Event)
  (callback : nat) (callbacks : list nat).

Lemma indexOf_absent callback callbacks :
  callback ∉ callbacks → indexOf callback callbacks = -1.
Proof.
  induction callbacks as [|c rest IH]; intros Hnot; [done|].
  simpl. destruct (Nat.eqb_spec c callback) as [-> | _].
  - exfalso. apply Hnot. left.
  - rewrite IH; [done|]. intros Hin. apply Hnot. by right.
Qed.

(** The unsubscribe function takes out the first registration of its
    callback and nothing else: a list without the callback is left alone
    (so a second call does nothing once no registration is left), a list
    with it loses exactly the first occurrence, and registering a callback
    that was not there and unsubscribing it gives the list back.  When the
    callback was registered before, unsubscribing the new registration
    removes the older one and the callback stays registered. *)
Theorem unsubscribe_first_registration callback callbacks :
  (callback ∉ callbacks → unsubscribe callback callbacks = callbacks) ∧
  (∀ before after,
     callbacks = before ++ callback :: after → callback ∉ before →
     unsubscribe callback callbacks = before ++ after) ∧
  (callback ∉ callbacks →
     unsubscribe callback (register callback callbacks) = callbacks) ∧
  (callback ∈ callbacks →
     callback ∈ unsubscribe callback (register callback callbacks)).
Proof.
  assert (∀ l before after,
            l = before ++ callback :: after → callback ∉ before →
            unsubscribe callback l = before ++ after) as Hsplit.
  { intros l before after -> Hbefore. unfold unsubscribe.
    assert (indexOf callback (before ++ callback :: after)
            = Z.of_nat (length before)) as ->.
    { clear -Hbefore. induction before as [|c rest IH]; simpl.
      - by rewrite Nat.eqb_refl.
      - destruct (Nat.eqb_spec c callback) as [-> | _].
        + exfalso. apply Hbefore. left.
        + rewrite IH by (intros Hin; apply Hbefore; by right).
          destruct (Z.eqb_spec (Z.of_nat (length rest)) (-1)); lia. }
    destruct (Z.gtb_spec (Z.of_nat (length before)) (-1)); [|lia].
    rewrite Nat2Z.id. clear. induction before as [|c rest IH]; [done|].
    simpl. by f_equal. }
  split; [|split; [|split]].
  - intros Hnot. unfold unsubscribe. by rewrite indexOf_absent.
  - intros before after. apply Hsplit.
  - intros Hnot. unfold register.
    rewrite (Hsplit _ callbacks [] eq_refl Hnot). apply app_nil_r.
  - intros Hin. apply list_elem_of_split in Hin as (l1 & l2 & ->).
    unfold register.
    destruct (decide (callback ∈ l1)) as [Hin1 | Hnot1].
    + apply list_elem_of_split_l in Hin1 as (k1 & k2 & -> & Hk1).
      rewrite <- !app_assoc. simpl.
      rewrite (Hsplit _ k1 (k2 ++ callback :: l2 ++ [callback]));
        [|by rewrite <- ?app_assoc | done].
      rewrite !elem_of_app, !elem_of_cons. right. right. by left.
    + rewrite <- app_assoc. simpl.
      rewrite (Hsplit _ l1 (l2 ++ [callback]) eq_refl Hnot1).
      rewrite !elem_of_app, list_elem_of_singleton. right. by right.
Qed.

Lemma unsubscribe_first_registration_witness :
  unsubscribe 7 (register 7 [3%nat; 5%nat]) = [3%nat; 5%nat] ∧
  unsubscribe 7 [3%nat; 7%nat; 5%nat; 7%nat] = [3%nat; 5%nat; 7%nat] ∧
  7%nat ∈ unsubscribe 7 (register 7 [7%nat; 5%nat]).
Proof.
  split; [|split].
  - apply (unsubscribe_first_registration 7 [3%nat; 5%nat]).
    intros Hin. repeat (apply elem_of_cons in Hin as [? | Hin]; [done|]).
    by apply elem_of_nil in Hin.
  - apply (unsubscribe_first_registration 7 [3%nat; 7%nat; 5%nat; 7%nat])
      with (before := [3%nat]); [reflexivity|].
    intros Hin. apply list_elem_of_singleton in Hin. discriminate Hin.
  - apply (unsubscribe_first_registration 7 [7%nat; 5%nat]). left.
Defined.

(** Unfolding of the methods, and the case analysis on what they test. *)
Ltac ws_open :=
  unfold exec, effects, step, withClient, onFailure, onDisconnect, onConnect,
    onConnectionChange, disconnect, timerCallback;
  unfold connect, setupClient, subscribeToTopics, subscribe, activate,
    deactivate, setTimeout, bind, get, modify, ret, emit.

Lemma heard_notify callback (connected : bool) (callbacks : list nat) :
  callback ∈ callbacks →
  last (heard callback ((λ c, Notify c connected) <$> callbacks)) = Some connected.
Proof.
  induction callbacks as [|c rest IH]; intros Hin; [by apply elem_of_nil in Hin|].
  unfold heard in *. cbn [fmap list_fmap omap list_omap].
  destruct (Nat.eqb_spec c callback) as [-> | Hne].
  - destruct (decide (callback ∈ rest)) as [Hrest | Hrest].
    + specialize (IH Hrest). destruct (omap _ _) eqn:E; [done|]. done.
    + assert (omap (λ x, match x with
                         | Notify c connected0 => if Nat.eqb c callback then Some connected0 else None
                         | _ => None end) ((λ c, Notify c connected) <$> rest) = []) as ->; [|done].
      clear -Hrest. induction rest as [|c rest IH]; [done|].
      cbn [fmap list_fmap omap list_omap].
      destruct (Nat.eqb_spec c callback) as [-> | _].
      * exfalso. apply Hrest. left.
      * apply IH. intros Hin. apply Hrest. by right.
  - apply elem_of_cons in Hin as [Heq | Hin]; [by symmetry in Heq|]. by apply IH.
Qed.

Lemma heard_app callback out1 out2 :
  heard callback (out1 ++ out2) = heard callback out1 ++ heard callback out2.
Proof. apply omap_app. Qed.


Ltac ws_cases :=
  repeat first
    [ progress simpl
    | rewrite notify_eq
    | rewrite handleReconnect_eq
    | match goal with
      | |- context [match ?x with _ => _ end] =>
          first [ is_var x; destruct x
                | match x with
                  | negb ?v => is_var v; destruct v
                  | _ !! _ => destruct x eqn:?
                  | (_ >=? _) => destruct x eqn:?
                  end ]
      end ].

Lemma step_heard e s callback :
  callback ∈ connectionCallbacks s →
  callback ∈ connectionCallbacks (exec (step e) s) ∧
  default (isConnected s) (last (heard callback (effects (step e) s)))
  = isConnected (exec (step e) s).
Proof.
  intros Hin. destruct s as [tok cl conn att del cbs tm]. simpl in Hin.
  destruct e; ws_open; ws_cases.
  all: split; try done.
  all: rewrite ?heard_app, ?app_nil_r, ?heard_notify by done; simpl; try done.
  all: try (rewrite elem_of_app; by left).
Qed.

(** The last value told to a listener is the flag of the service. *)
Lemma last_heard s es callback :
  callback ∈ connectionCallbacks s →
  default (isConnected s) (last (heard callback (effects (run es) s)))
  = isConnected (exec (run es) s).
Proof.
  revert s. induction es as [|e es IH]; intros s Hin; [done|].
  destruct (run_cons e es s) as [-> ->].
  destruct (step_heard e s callback Hin) as [Hin' Hstep].
  rewrite heard_app, last_app, <- (IH _ Hin'), <- Hstep.
  by destruct (last (heard callback (effects (run es) _))).
Qed.

(** A registered connection listener always knows the state of the
    service: over any run of events, the last value it was told (or, if it
    was told nothing, the value of [isConnected] at the start) is the value
    of [isConnected] at the end. *)
Theorem indicator_follows_service s es callback :
  callback ∈ connectionCallbacks s →
  default (isConnected s) (last (heard callback (effects (run es) s)))
  = isConnected (exec (run es) s).
Proof. apply last_heard. Qed.

Lemma deliver_last (told : list bool) (w : AgentTracking.World) :
  AgentTracking.wsConnected (AgentTracking.hooks (deliver told w))
  = default (AgentTracking.wsConnected (AgentTracking.hooks w)) (last told) ∧
  length (toasts (deliver told w)) = (length (toasts w) + length told)%nat.
Proof.
  revert w. induction told as [|connected rest IH]; intros w.
  - simpl. split; [done | lia].
  - simpl deliver. destruct (IH (AgentTracking.handleConnectionChange connected w))
      as [-> ->].
    split.
    + destruct rest as [|next rest]; [by destruct connected|].
      change (last (connected :: next :: rest)) with (last (next :: rest)).
      destruct (last (next :: rest)) eqn:E; [done|].
      apply last_None in E. discriminate E.
    + unfold toasts, AgentTracking.handleConnectionChange.
      destruct connected; simpl; rewrite List.filter_app, length_app; simpl; lia.
Qed.

(** The "Live" indicator of the tracking page agrees with the service: if
    the page registered its listener when its [wsConnected] cell had the
    value of [isConnected], then after any run of events of the service,
    delivered to [handleConnectionChange], the cell has the value of
    [isConnected] again; and the page has shown one toast per notification. *)
Theorem live_indicator_agrees s es callback (w : AgentTracking.World) :
  callback ∈ connectionCallbacks s →
  AgentTracking.wsConnected (AgentTracking.hooks w) = isConnected s →
  let told := heard callback (effects (run es) s) in
  AgentTracking.wsConnected (AgentTracking.hooks (deliver told w))
  = isConnected (exec (run es) s) ∧
  length (toasts (deliver told w)) = (length (toasts w) + length told)%nat.
Proof.
  intros Hin Hstart. cbv zeta.
  destruct (deliver_last (heard callback (effects (run es) s)) w) as [-> ->].
  split; [|done]. rewrite Hstart. by apply last_heard.
Qed.



(** [connect()] at most activates the client: it tells no listener, sets
    no timer, leaves [isConnected] and the attempt counter alone, does
    nothing at all on a service without client and without stored token,
    and a second call leaves the state where the first one put it. *)
Theorem connect_settles s :
  exec connect (exec connect s) = exec connect s ∧
  (effects connect s = [] ∨ effects connect s = [Activate]) ∧
  (token s = None → client s = None → connect s = (tt, s, [])) ∧
  isConnected (exec connect s) = isConnected s ∧
  reconnectAttempts (exec connect s) = reconnectAttempts s ∧
  pendingTimers (exec connect s) = pendingTimers s.
Proof.
  destruct s as [tok cl conn att del cbs tm].
  unfold exec, effects. ws_open. ws_cases.
  all: repeat split; eauto; try done.
Qed.

Lemma delete_out_of_range {A} (l : list A) (i : nat) :
  l !! i = None → delete i l = l.
Proof.
  revert i. induction l as [|x rest IH]; intros [|i] Hi; try done.
  simpl. f_equal. by apply IH.
Qed.

(** A reconnect timer that runs is taken off the pending ones and at most
    activates the client; it tells no listener, counts no attempt and sets no
    further timer, and it does nothing when the service is connected. *)
Theorem timer_only_activates s i :
  let s' := exec (step (TimerFires i)) s in
  isConnected s' = isConnected s ∧
  reconnectAttempts s' = reconnectAttempts s ∧
  connectionCallbacks s' = connectionCallbacks s ∧
  pendingTimers s' = delete i (pendingTimers s) ∧
  (effects (step (TimerFires i)) s = [] ∨
   effects (step (TimerFires i)) s = [Activate]) ∧
  (isConnected s = true → effects (step (TimerFires i)) s = []).
Proof.
  cbv zeta. destruct s as [tok cl conn att del cbs tm].
  ws_open. ws_cases.
  all: repeat split; eauto; try done.
  all: symmetry; by apply delete_out_of_range.
Qed.

Lemma indicator_follows_service_witness :
  last (heard 1 (effects (run [OnWebSocketClose; OnConnect; Disconnect])
                         Samples.liveService)) = Some false ∧
  isConnected (exec (run [OnWebSocketClose; OnConnect; Disconnect])
                    Samples.liveService) = false.
Proof.
  pose proof (indicator_follows_service Samples.liveService
                [OnWebSocketClose; OnConnect; Disconnect] 1) as Hfollows.
  assert (1%nat ∈ connectionCallbacks Samples.liveService) as Hin by (vm_compute; left).
  specialize (Hfollows Hin). split; [reflexivity|].
  rewrite <- Hfollows. reflexivity.
Defined.

Lemma connect_settles_witness :
  connect (new None) = (tt, new None, []).
Proof.
  destruct (connect_settles (new None)) as (_ & _ & Hnothing & _).
  apply Hnothing; reflexivity.
Defined.

Lemma timer_only_activates_witness :
  effects (step (TimerFires 0))
          (exec (run [OnWebSocketClose; OnConnect]) Samples.liveService) = [].
Proof.
  destruct (timer_only_activates
              (exec (run [OnWebSocketClose; OnConnect]) Samples.liveService) 0)
    as (_ & _ & _ & _ & _ & Hquiet).
  apply Hquiet. reflexivity.
Defined.

Lemma live_indicator_agrees_witness :
  AgentTracking.wsConnected
    (AgentTracking.hooks
       (deliver (heard 1 (effects (run [OnWebSocketClose; OnConnect]) Samples.liveService))
                Samples.streamUp)) = true.
Proof.
  destruct (live_indicator_agrees Samples.liveService [OnWebSocketClose; OnConnect] 1
              Samples.streamUp) as [Hcell _].
  - vm_compute. left.
  - reflexivity.
  - rewrite Hcell. reflexivity.
Defined.

End ServiceMore.

(** ** Reconciliation store: how events compose *)

Section StoreMore.

Import AgentTracking Samples Events.

Implicit Types (store : list AgentLocation) (now : string).

Lemma ids_handleStatusUpdate now (u : S.t) store :
  ids (handleStatusUpdate now u store) = ids store.
Proof.
  unfold ids, handleStatusUpdate. induction store as [|agent rest IH]; [done|].
  cbn [map fmap list_fmap]. f_equal; [|apply IH].
  by destruct (String.eqb _ _).
Qed.

Lemma spread_key_assoc {A} (x y z : option A) :
  spread_key (spread_key x y) z = spread_key x (spread_key y z).
Proof. by destruct z. Qed.

(** The identifiers of the store are stable: a status event leaves the
    list of identifiers as it is; a location event leaves it as it is when
    the agent is known and appends the new identifier otherwise; either way
    no identifier is lost or moved, and pairwise distinct identifiers stay
    pairwise distinct. *)
Theorem store_identifiers_stable now store :
  (∀ u : S.t, ids (handleStatusUpdate now u store) = ids store) ∧
  (∀ u : U.t,
     ((U.agentId u ∈ ids store) ∧
      (ids (handleLocationUpdate now u store) = ids store)) ∨
     ((U.agentId u ∉ ids store) ∧
      (ids (handleLocationUpdate now u store) = ids store ++ [U.agentId u]))) ∧
  (∀ u : U.t, NoDup (ids store) → NoDup (ids (handleLocationUpdate now u store))).
Proof.
  assert (∀ u : U.t,
     ((U.agentId u ∈ ids store) ∧
      (ids (handleLocationUpdate now u store) = ids store)) ∨
     ((U.agentId u ∉ ids store) ∧
      (ids (handleLocationUpdate now u store) = ids store ++ [U.agentId u]))) as Hloc.
  { intros u. destruct (decide (U.agentId u ∈ ids store)) as [Hin | Hnot].
    - left. split; [done|].
      rewrite handleLocationUpdate_present by done. apply ids_of_map_merge.
    - right. split; [done|].
      rewrite handleLocationUpdate_absent by done. unfold ids. by rewrite fmap_app. }
  split; [|split].
  - intros u. apply ids_handleStatusUpdate.
  - exact Hloc.
  - intros u Hnodup. destruct (Hloc u) as [[_ ->] | [Hnot ->]]; [done|].
    apply NoDup_app. split; [done|]. split; [|apply NoDup_singleton].
    intros id Hin Hnew. apply list_elem_of_singleton in Hnew. by subst id.
Qed.

Lemma store_identifiers_stable_witness :
  NoDup (ids (handleLocationUpdate receipt pingA1 [agentA1])).
Proof.
  destruct (store_identifiers_stable receipt [agentA1]) as (_ & _ & Hnodup).
  apply Hnodup. apply NoDup_singleton.
Defined.

(** Two location events about one agent compose into one: applying the
    earlier and then the later gives the store that the later alone gives
    once the optional keys it lacks are taken from the earlier; the time
    stamp is that of the later receipt.  Two status events about one agent
    compose into the later one. *)
Theorem later_event_wins store :
  (∀ now1 now2 (u1 u2 : U.t),
     U.agentId u1 = U.agentId u2 →
     handleLocationUpdate now2 u2 (handleLocationUpdate now1 u1 store)
     = handleLocationUpdate now2 (backfill u1 u2) store) ∧
  (∀ now1 now2 (s1 s2 : S.t),
     S.agentId s1 = S.agentId s2 →
     handleStatusUpdate now2 s2 (handleStatusUpdate now1 s1 store)
     = handleStatusUpdate now2 s2 store).
Proof.
  split.
  - intros now1 now2 u1 u2 Hid.
    assert (U.agentId (backfill u1 u2) = U.agentId u2) as Hb by done.
    destruct (decide (U.agentId u1 ∈ ids store)) as [Hin | Hnot].
    + rewrite (handleLocationUpdate_present now1 u1 store Hin).
      rewrite handleLocationUpdate_present
        by (rewrite ids_of_map_merge; by rewrite <- Hid).
      rewrite handleLocationUpdate_present by (by rewrite Hb, <- Hid).
      rewrite List.map_map. apply List.map_ext. intros agent. rewrite Hb.
      destruct (String.eqb (agentId agent) (U.agentId u1)) eqn:E.
      * simpl. rewrite <- Hid, String.eqb_refl, E.
        unfold merge_update. simpl. by rewrite !spread_key_assoc.
      * rewrite <- Hid, E. reflexivity.
    + rewrite (handleLocationUpdate_absent now1 u1 store Hnot).
      rewrite handleLocationUpdate_present.
      2:{ unfold ids. rewrite fmap_app, elem_of_app. right. rewrite <- Hid. left. }
      rewrite handleLocationUpdate_absent by (by rewrite Hb, <- Hid).
      rewrite List.map_app. rewrite <- Hid. rewrite map_no_match by done.
      f_equal. simpl. by rewrite String.eqb_refl.
  - intros now1 now2 s1 s2 Hid. unfold handleStatusUpdate.
    rewrite List.map_map. apply List.map_ext. intros agent.
    destruct (String.eqb (agentId agent) (S.agentId s1)) eqn:E.
    + simpl. rewrite <- Hid, E. reflexivity.
    + rewrite <- Hid, E. reflexivity.
Qed.

Lemma later_event_wins_witness :
  handleLocationUpdate receipt pingA1
    (handleLocationUpdate "2025-01-01T10:00:20.000Z" pingA1 [agentA1])
  = handleLocationUpdate receipt (backfill pingA1 pingA1) [agentA1].
Proof.
  destruct (later_event_wins [agentA1]) as [Hlocation _].
  apply Hlocation. reflexivity.
Defined.



(** A status event repairs what a location event about the same agent may
    have left out of step: if the records stored before were synchronised,
    then after the location event, whatever its flag says, followed by the
    status event, every record is synchronised again. *)
Theorem status_event_resynchronises now1 now2 (u : U.t) (s : S.t) store :
  Forall synced store →
  S.agentId s = U.agentId u →
  Forall synced (handleStatusUpdate now2 s (handleLocationUpdate now1 u store)).
Proof.
  intros Hstore Hid.
  assert (Forall (λ agent, synced agent ∨ agentId agent = U.agentId u)
                 (handleLocationUpdate now1 u store)) as Hafter.
  { unfold handleLocationUpdate. set (mapped := map _ store).
    assert (Forall (λ agent, synced agent ∨ agentId agent = U.agentId u) mapped)
      as Hmapped.
    { unfold mapped. clear mapped.
      induction Hstore as [|agent rest Hagent _ IH]; simpl; constructor; [|apply IH].
      destruct (String.eqb _ _); [by right | by left]. }
    destruct (find _ mapped); [done|].
    apply Forall_app. split; [done|]. apply Forall_singleton. by right. }
  unfold handleStatusUpdate.
  induction Hafter as [|agent rest Hagent _ IH]; simpl; constructor; [|apply IH].
  destruct (String.eqb (agentId agent) (S.agentId s)) eqn:E; [reflexivity|].
  destruct Hagent as [Hsynced | Hsame]; [done|].
  apply String.eqb_neq in E. congruence.
Qed.

Lemma status_event_resynchronises_witness :
  Forall synced (handleStatusUpdate receipt statusA2
                   (handleLocationUpdate receipt skewedA2 [agentA1])).
Proof.
  apply status_event_resynchronises; [repeat constructor | reflexivity].
Defined.

(** A status event changes, in the records of its agent, the status, the
    flag and the time stamp and nothing else (position, telemetry and name
    stay), and it leaves every other record as it is. *)
Theorem status_update_frame now (u : S.t) store (i : nat) (agent : AgentLocation) :
  store !! i = Some agent →
  ∃ agent',
    handleStatusUpdate now u store !! i = Some agent' ∧
    agentId agent' = agentId agent ∧
    agentFirstName agent' = agentFirstName agent ∧
    agentLastName agent' = agentLastName agent ∧
    agentMobile agent' = agentMobile agent ∧
    lastLocation agent' = lastLocation agent ∧
    latitude agent' = latitude agent ∧
    longitude agent' = longitude agent ∧
    accuracy agent' = accuracy agent ∧
    batteryLevel agent' = batteryLevel agent ∧
    isCharging agent' = isCharging agent ∧
    (agentId agent ≠ S.agentId u → agent' = agent) ∧
    (agentId agent = S.agentId u →
       connectionStatus agent' = S.status u ∧
       isOnline agent' = is_ONLINE (S.status u) ∧
       lastUpdate agent' = now).
Proof.
  intros Hi. unfold handleStatusUpdate.
  change (map ?f store) with (f <$> store). rewrite list_lookup_fmap, Hi. simpl.
  eexists. split; [reflexivity|].
  destruct (String.eqb (agentId agent) (S.agentId u)) eqn:E; simpl.
  - apply String.eqb_eq in E. repeat split; done.
  - apply String.eqb_neq in E. repeat split; done.
Qed.

Lemma status_update_frame_witness :
  ∃ agent', handleStatusUpdate receipt statusA2 [agentA1] !! 0%nat = Some agent' ∧
            latitude agent' = latitude agentA1.
Proof.
  destruct (status_update_frame receipt statusA2 [agentA1] 0 agentA1 eq_refl)
    as (agent' & Hat & _ & _ & _ & _ & _ & Hlat & _).
  exists agent'. split; [exact Hat | exact Hlat].
Defined.

End StoreMore.

(** ** Snapshot loader: the retry chain; display of the last update *)

Section LoaderMore.

Import AgentTracking Samples Display.

Local Open Scope Z_scope.

Implicit Types (render : State) (w : World) (error : JsError) (now : string).

(** The retry counter cell after a retried failure. *)
Lemma load_retried_count render (isRetryAttempt : bool) error now w :
  retryCount render < MAX_RETRY_ATTEMPTS →
  name error ≠ "AbortError" →
  retryCount (hooks (loadAgentLocations render isRetryAttempt (Threw error) now w))
  = (if isRetryAttempt then retryCount (hooks w) else 0) + 1 ∧
  agents (hooks (loadAgentLocations render isRetryAttempt (Threw error) now w))
  = agents (hooks w).
Proof.
  intros Hcount Hname. unfold loadAgentLocations.
  rewrite catch_retries by done. by destruct isRetryAttempt.
Qed.

(** From mount on, a chain of failed loads that are not timeouts never ends
    in an error: after the failure at mount and any number of failures of the
    retries, no error has been shown, every retry was set 2000 ms ahead, one
    retry is pending again, and the retry counter cell (shown as
    "Retrying... (n/3)") has counted every failure. *)
Theorem retry_chain_never_gives_up role now0 statistics (connected : bool)
    (e0 : JsError) (failures : list (JsError * string)) :
  name e0 ≠ "AbortError" →
  Forall (λ failure, name failure.1 ≠ "AbortError") failures →
  let first := initialState role now0 in
  let w := run first ((λ failure, RetryTimer (Threw failure.1) failure.2) <$> failures)
               (mount role now0 (Threw e0) statistics connected) in
  errorsShown w = [] ∧
  delaysScheduled w = replicate (S (length failures)) 2000 ∧
  timers w = [mkTimer 2000 first] ∧
  retryCount (hooks w) = Z.of_nat (S (length failures)) ∧
  agents (hooks w) = [].
Proof.
  intros He0 Hfailures. cbv zeta.
  set (first := initialState role now0).
  assert (retryCount first < MAX_RETRY_ATTEMPTS) as Hcount by (vm_compute; done).
  set (P := λ (n : nat) w,
         errorsShown w = [] ∧ delaysScheduled w = replicate n 2000 ∧
         timers w = [mkTimer 2000 first] ∧ retryCount (hooks w) = Z.of_nat n ∧
         agents (hooks w) = []).
  assert (P 1%nat (mount role now0 (Threw e0) statistics connected)) as Hmount.
  { unfold mount. fold first.
    destruct (load_retried first false e0 now0 (mkWorld first [] []) Hcount He0)
      as [Htrace Htimers].
    destruct (load_retried_count first false e0 now0 (mkWorld first [] []) Hcount He0)
      as [Hcell Hagents].
    set (loaded := loadAgentLocations first false (Threw e0) now0 (mkWorld first [] [])) in *.
    clearbody loaded. simpl in Htrace, Htimers, Hcell, Hagents.
    unfold P, errorsShown, delaysScheduled, loadLocationStats.
    destruct statistics; simpl; rewrite Htrace; simpl; repeat split; done. }
  assert (∀ n w failure, P n w → name failure.1 ≠ "AbortError" →
            P (S n) (step first (RetryTimer (Threw failure.1) failure.2) w)) as Hstep.
  { intros n w [e t] (Herr & Hdel & Htm & Hcell & Hagents) Hname. simpl in Hname.
    simpl step. rewrite Htm. simpl closure.
    destruct (load_retried first true e t (mkWorld (hooks w) [] (trace w)) Hcount Hname)
      as [Htrace Htimers].
    destruct (load_retried_count first true e t (mkWorld (hooks w) [] (trace w))
                Hcount Hname) as [Hcell' Hagents'].
    set (loaded := loadAgentLocations first true (Threw e) t _) in *.
    clearbody loaded. simpl in Htrace, Htimers, Hcell', Hagents'.
    unfold P, errorsShown, delaysScheduled in *. rewrite Htrace.
    rewrite List.filter_app, omap_app, Herr, Hdel. simpl.
    repeat split; try done.
    - change (2000 :: replicate n 2000) with (replicate (S n) 2000).
      by rewrite <- replicate_S_end.
    - rewrite Hcell', Hcell. lia.
    - by rewrite Hagents'. }
  assert (∀ n w, P n w →
            P (n + length failures)%nat
              (run first ((λ failure, RetryTimer (Threw failure.1) failure.2)
                            <$> failures) w)) as Hrun.
  { induction Hfailures as [|failure rest Hfailure _ IH]; intros n w Hw.
    - by rewrite Nat.add_0_r.
    - cbn [fmap list_fmap length]. unfold run. cbn [fold_left].
      replace (n + S (length rest))%nat with (S n + length rest)%nat by lia.
      apply IH. by apply Hstep. }
  exact (Hrun 1%nat _ Hmount).
Qed.

Lemma retry_chain_never_gives_up_witness :
  errorsShown afterFailure3 = [] ∧ retryCount (hooks afterFailure3) = 3.
Proof.
  destruct (retry_chain_never_gives_up (Some "master") receipt None false networkError
              [(networkError, receipt); (networkError, receipt)])
    as (Herrors & _ & _ & Hcount & _).
  - discriminate.
  - repeat constructor; discriminate.
  - split; [exact Herrors | exact Hcount].
Defined.

End LoaderMore.

(** ** Display of the last update *)

Section DisplayFacts.

Import Display.

Local Open Scope Z_scope.

Variable parse : string → option Z.
Variable toLocaleDateString : string → string.

(** What [formatLastUpdate] shows, by the age [now - date] of a valid time
    stamp: "Just now" for any age below one minute, a time stamp in the
    future included; the whole minutes, from 1 to 59, below one hour; the
    whole hours, from 1 to 23, below one day; the local date from one day on.
    An invalid time stamp is shown as its local date string. *)
Theorem formatLastUpdate_by_age (now : Z) (timestamp : string) :
  (parse timestamp = None →
     formatLastUpdate parse toLocaleDateString now timestamp
     = toLocaleDateString timestamp) ∧
  (∀ date, parse timestamp = Some date →
     let age := now - date in
     let shown := formatLastUpdate parse toLocaleDateString now timestamp in
     (age < 60000 → shown = "Just now") ∧
     (60000 ≤ age < 3600000 →
        shown = pretty (age / 60000) +:+ "m ago" ∧ 1 ≤ age / 60000 ≤ 59) ∧
     (3600000 ≤ age < 86400000 →
        shown = pretty (age / 3600000) +:+ "h ago" ∧ 1 ≤ age / 3600000 ≤ 23) ∧
     (86400000 ≤ age → shown = toLocaleDateString timestamp)).
Proof.
  split.
  - intros Hnone. unfold formatLastUpdate. by rewrite Hnone.
  - intros date Hdate. cbv zeta. unfold formatLastUpdate. rewrite Hdate.
    set (age := now - date).
    assert (age / 60000 / 60 = age / 3600000) as Hhours
      by (rewrite Z.div_div by lia; reflexivity).
    repeat split.
    + intros Hage.
      destruct (Z.ltb_spec (age / 1000) 10) as [_ | Hsec]; [done|].
      destruct (Z.ltb_spec (age / 60000) 1) as [_ | Hmin]; [done|].
      exfalso. assert (age / 60000 ≤ 0); [|lia].
      apply Z.lt_succ_r. apply Z.div_lt_upper_bound; lia.
    + destruct H as [Hlo Hhi].
      assert (1 ≤ age / 60000) by (apply Z.div_le_lower_bound; lia).
      assert (age / 60000 < 60) by (apply Z.div_lt_upper_bound; lia).
      assert (10 ≤ age / 1000) by (apply Z.div_le_lower_bound; lia).
      destruct (Z.ltb_spec (age / 1000) 10); [lia|].
      destruct (Z.ltb_spec (age / 60000) 1); [lia|].
      destruct (Z.ltb_spec (age / 60000) 60); [done|lia].
    + destruct H as [Hlo Hhi]. apply Z.div_le_lower_bound; lia.
    + destruct H as [Hlo Hhi].
      assert (age / 60000 < 60) by (apply Z.div_lt_upper_bound; lia). lia.
    + destruct H as [Hlo Hhi].
      assert (60 ≤ age / 60000) by (apply Z.div_le_lower_bound; lia).
      assert (age / 60000 < 1440) by (apply Z.div_lt_upper_bound; lia).
      assert (10 ≤ age / 1000) by (apply Z.div_le_lower_bound; lia).
      destruct (Z.ltb_spec (age / 1000) 10); [lia|].
      destruct (Z.ltb_spec (age / 60000) 1); [lia|].
      destruct (Z.ltb_spec (age / 60000) 60); [lia|].
      destruct (Z.ltb_spec (age / 60000) 1440); [|lia].
      by rewrite Hhours.
    + destruct H as [Hlo Hhi]. apply Z.div_le_lower_bound; lia.
    + destruct H as [Hlo Hhi].
      assert (age / 3600000 < 24) by (apply Z.div_lt_upper_bound; lia). lia.
    + intros Hage.
      assert (1440 ≤ age / 60000) by (apply Z.div_le_lower_bound; lia).
      assert (10 ≤ age / 1000) by (apply Z.div_le_lower_bound; lia).
      destruct (Z.ltb_spec (age / 1000) 10); [lia|].
      destruct (Z.ltb_spec (age / 60000) 1); [lia|].
      destruct (Z.ltb_spec (age / 60000) 60); [lia|].
      destruct (Z.ltb_spec (age / 60000) 1440); [lia|done].
Qed.

End DisplayFacts.

(** Ninety minutes after a time stamp, "1h ago" is shown. *)
Lemma formatLastUpdate_by_age_witness :
  Display.formatLastUpdate (λ _, Some 1000000%Z) (λ _, "1/1/2025")
    (1000000 + 5400000)%Z "2025-01-01T10:00:00.000Z" = "1h ago".
Proof.
  destruct (formatLastUpdate_by_age (λ _, Some 1000000%Z) (λ _, "1/1/2025")
              (1000000 + 5400000)%Z "2025-01-01T10:00:00.000Z") as [_ Hvalid].
  destruct (Hvalid 1000000%Z eq_refl) as (_ & _ & Hhours & _).
  destruct Hhours as [Hshown _]; [lia|]. exact Hshown.
Defined.

(** ** Map view, focus and filters *)

Section ViewFacts.

Import AgentTracking TrackingView.

Variable toLowerCase : string → string.
Variable trim : string → string.

Implicit Types (v : View) (agents : list AgentLocation).

Lemma act_keeps_focus_in_step (a : Action) v :
  (mapView v = agent_detail ↔ is_Some (focusedAgent v)) →
  (mapView (act a v) = agent_detail ↔ is_Some (focusedAgent (act a v))).
Proof.
  intros Hv. destruct a; simpl; try exact Hv.
  - split; eauto.
  - split; [done | intros [? ?]; done].
  - unfold onAgentClick. destruct (find _ _); [|exact Hv]. simpl. split; eauto.
Qed.

(** Focus and overview exclude each other: whatever the user has done since
    the page opened, the view is in agent-detail mode exactly when an agent
    is focused; so the map is asked to fit its bounds exactly when it is
    given no centre, and is given zoom 15 exactly when it is given one. *)
Theorem focus_and_overview_exclusive (actions : list Action) agents :
  let v := acts actions initialView in
  let props := googleMapProps toLowerCase trim v agents in
  (mapView v = agent_detail ↔ is_Some (focusedAgent v)) ∧
  (GoogleMap.autoFitBounds props = Some true ↔ GoogleMap.center props = None) ∧
  (GoogleMap.autoFitBounds props = Some false ↔ GoogleMap.zoom props = Some 15) ∧
  props = GoogleMap.trackingProps (negb (isDetail (mapView v)))
            (GoogleMap.center props) (GoogleMap.agents props).
Proof.
  cbv zeta.
  assert (mapView (acts actions initialView) = agent_detail
          ↔ is_Some (focusedAgent (acts actions initialView))) as Hinv.
  { assert (mapView initialView = agent_detail ↔ is_Some (focusedAgent initialView))
      as Hinit by (split; [discriminate | intros [? ?]; done]).
    unfold acts. revert Hinit. generalize initialView.
    induction actions as [|a rest IH]; intros v Hv; [exact Hv|].
    simpl. apply IH. by apply act_keeps_focus_in_step. }
  split; [exact Hinv|].
  destruct (acts actions initialView) as [m f sel t1 t2 sf]. simpl in *.
  destruct m, f as [agent|]; simpl.
  - exfalso. destruct Hinv as [_ H]. by specialize (H (mk_is_Some _ _ eq_refl)).
  - repeat split; try done.
  - repeat split; try done.
  - exfalso. destruct Hinv as [H _]. destruct (H eq_refl) as [? ?]. done.
Qed.

Lemma filter_split {A} (f : A → bool) (l : list A) :
  List.filter f l ++ List.filter (λ x, negb (f x)) l ≡ₚ l.
Proof.
  induction l as [|x rest IH]; [done|].
  simpl. destruct (f x); simpl.
  - by f_equiv.
  - rewrite <- Permutation_middle. by f_equiv.
Qed.

Lemma filter_sublist {A} (f : A → bool) (l : list A) :
  List.filter f l `sublist_of` l.
Proof.
  induction l as [|x rest IH]; [done|].
  simpl. destruct (f x); by constructor.
Qed.

(** The list of agents under the status filter.  Whatever the search term,
    the list shown is the store with records left out, in the order of the
    store, and under ONLINE every record shown has its flag set.  With a
    blank search term, ALL shows the store, and ONLINE and OFFLINE share it
    out: each record is in exactly one of them, by its [isOnline] flag. *)
Theorem status_filter_partitions v agents :
  let shown f := filteredAgentsForList toLowerCase trim (act (ChooseStatus f) v) agents in
  (∀ f, shown f `sublist_of` agents) ∧
  Forall (λ agent, isOnline agent = true) (shown StatusFilter.ONLINE) ∧
  (isBlank trim (agentListSearchTerm v) = true →
     shown StatusFilter.ALL = agents ∧
     shown StatusFilter.ONLINE = List.filter isOnline agents ∧
     shown StatusFilter.OFFLINE = List.filter (λ agent, negb (isOnline agent)) agents ∧
     shown StatusFilter.ONLINE ++ shown StatusFilter.OFFLINE ≡ₚ agents ∧
     (length (shown StatusFilter.ONLINE) + length (shown StatusFilter.OFFLINE)
      = length agents)%nat).
Proof.
  cbv zeta. unfold filteredAgentsForList. simpl.
  split; [|split].
  - intros f.
    destruct f; destruct (negb _);
      repeat first [ done | apply filter_sublist
                   | (etrans; [apply filter_sublist|]) ].
  - assert (Forall (λ agent, isOnline agent = true)
                   (List.filter (passesStatus StatusFilter.ONLINE) agents)) as Hall.
    { apply Forall_forall. intros agent Hin. apply list_elem_of_In in Hin.
      apply List.filter_In in Hin as [_ Hflag]. exact Hflag. }
    destruct (negb _); [|exact Hall].
    rewrite Forall_forall in Hall. apply Forall_forall. intros agent Hin.
    apply Hall. eapply elem_of_sublist; [exact Hin | apply filter_sublist].
  - intros Hblank. rewrite Hblank. simpl.
    repeat split.
    + apply filter_split.
    + rewrite <- length_app. apply Permutation_length, filter_split.
Qed.

End ViewFacts.

Lemma status_filter_partitions_witness :
  TrackingView.filteredAgentsForList (λ x, x) (λ x, x)
    (TrackingView.act (TrackingView.ChooseStatus TrackingView.StatusFilter.ALL)
                      TrackingView.initialView)
    [Samples.agentA1] = [Samples.agentA1].
Proof.
  destruct (status_filter_partitions (λ x, x) (λ x, x) TrackingView.initialView
              [Samples.agentA1]) as (_ & _ & Hblank).
  destruct (Hblank eq_refl) as [Hall _]. exact Hall.
Defined.

(** ** Markers and centre of the map *)

Section MarkerFacts.

Import GoogleMap MapEffects Scenarios.

Variable fitView : LatLngBounds → LatLng * number.

Implicit Types (agent : AgentMarker) (markers : Markers) (id : string).

Lemma find_key_map (g : string * MapMarker → string * MapMarker) id markers :
  (∀ entry, (g entry).1 = entry.1) →
  find (λ entry, String.eqb entry.1 id) (List.map g markers)
  = g <$> find (λ entry, String.eqb entry.1 id) markers.
Proof.
  intros Hg. induction markers as [|entry rest IH]; [done|].
  simpl. rewrite Hg. destruct (String.eqb entry.1 id); [done | exact IH].
Qed.

Lemma refreshEntry_key agent entry : (refreshEntry agent entry).1 = entry.1.
Proof. unfold refreshEntry. by destruct (String.eqb _ _). Qed.

Lemma keys_refresh agent markers :
  keys (List.map (refreshEntry agent) markers) = keys markers.
Proof.
  unfold keys. induction markers as [|entry rest IH]; [done|].
  cbn [List.map fmap list_fmap]. f_equal; [apply refreshEntry_key | exact IH].
Qed.

Lemma get_in_keys id markers : is_Some (get id markers) ↔ id ∈ keys markers.
Proof.
  unfold get, keys. induction markers as [|[k m] rest IH]; simpl.
  - split; [intros [? ?]; done | intros Hin; by apply elem_of_nil in Hin].
  - destruct (String.eqb_spec k id) as [-> | Hne]; simpl.
    + split; [intros _; left | eauto].
    + rewrite IH. split; [by right|].
      intros Hin. apply elem_of_cons in Hin as [Heq | Hin]; [by symmetry in Heq | done].
Qed.

(** The three things the effect does for one agent. *)
Lemma syncAgent_cases agent markers :
  (placed agent = false ∧ syncAgent agent markers = markers) ∨
  (placed agent = true ∧ (agentId agent ∈ keys markers) ∧
   syncAgent agent markers = List.map (refreshEntry agent) markers) ∨
  (placed agent = true ∧ (agentId agent ∉ keys markers) ∧
   syncAgent agent markers = markers ++ [(agentId agent, createMarker agent)]).
Proof.
  unfold syncAgent, placed.
  destruct (falsy (latitude agent) || falsy (longitude agent)); [by left|].
  right. destruct (get (agentId agent) markers) eqn:Hget.
  - left. split; [done|]. split; [|done]. apply get_in_keys. by rewrite Hget.
  - right. split; [done|]. split; [|done]. intros Hin. apply get_in_keys in Hin.
    rewrite Hget in Hin. by destruct Hin.
Qed.

Lemma syncEffect_cons agent agents markers :
  syncEffect true (agent :: agents) markers
  = syncEffect true agents (syncAgent agent markers).
Proof. reflexivity. Qed.

Lemma syncEffect_app agents1 agents2 markers :
  syncEffect true (agents1 ++ agents2) markers
  = syncEffect true agents2 (syncEffect true agents1 markers).
Proof. unfold syncEffect. simpl. apply fold_left_app. Qed.

Lemma keys_syncAgent agent markers :
  keys (syncAgent agent markers)
  = keys markers ++ (if placed agent && negb (bool_decide (agentId agent ∈ keys markers))
                     then [agentId agent] else []).
Proof.
  destruct (syncAgent_cases agent markers)
    as [[Hp ->] | [(Hp & Hin & ->) | (Hp & Hnot & ->)]]; rewrite Hp; simpl.
  - by rewrite app_nil_r.
  - rewrite keys_refresh, bool_decide_eq_true_2 by done. simpl. by rewrite app_nil_r.
  - rewrite bool_decide_eq_false_2 by done. simpl. unfold keys. by rewrite fmap_app.
Qed.

(** The keys of the [Map] after a run of the effect. *)
Lemma syncEffect_keys (ready : bool) agents markers :
  (∃ added, keys (syncEffect ready agents markers) = keys markers ++ added) ∧
  (NoDup (keys markers) → NoDup (keys (syncEffect ready agents markers))) ∧
  (ready = false → syncEffect ready agents markers = markers) ∧
  (ready = true → ∀ id,
     id ∈ keys (syncEffect ready agents markers) ↔
     id ∈ keys markers ∨ ∃ agent, agent ∈ agents ∧ placed agent = true ∧ agentId agent = id).
Proof.
  destruct ready; [|repeat split; try done; by exists []; rewrite app_nil_r].
  revert markers. induction agents as [|agent rest IH]; intros markers.
  - split; [by exists []; rewrite app_nil_r|]. repeat split; try done.
    + by left.
    + intros [Hin | (agent & Hin & _)]; [done | by apply elem_of_nil in Hin].
  - rewrite syncEffect_cons.
    destruct (IH (syncAgent agent markers)) as ([added Hkeys] & Hnodup & _ & Hmem).
    pose proof (keys_syncAgent agent markers) as Hstep.
    split; [|split; [|split]]; [| | done |].
    + eexists. rewrite Hkeys, Hstep, <- app_assoc. reflexivity.
    + intros Hnd. apply Hnodup. rewrite Hstep.
      destruct (placed agent); simpl; [|by rewrite app_nil_r].
      destruct (bool_decide_reflect (agentId agent ∈ keys markers)) as [Hin | Hnot];
        simpl; [by rewrite app_nil_r|].
      apply NoDup_app. split; [done|]. split; [|apply NoDup_singleton].
      intros id Hid Hnew. apply list_elem_of_singleton in Hnew. by subst id.
    + intros _ id. rewrite (Hmem eq_refl id), Hstep, elem_of_app. split.
      * intros [[Hold | Hnew] | (a & Hin & Hp & Hid)].
        -- by left.
        -- right. exists agent.
           destruct (placed agent) eqn:Hp; simpl in Hnew;
             [|by apply elem_of_nil in Hnew].
           destruct (bool_decide _); simpl in Hnew; [by apply elem_of_nil in Hnew|].
           apply list_elem_of_singleton in Hnew. split; [left | done].
        -- right. exists a. split; [by right | done].
      * intros [Hold | (a & Hin & Hp & Hid)]; [by left; left|].
        apply elem_of_cons in Hin as [-> | Hin].
        -- left. rewrite Hp. simpl.
           destruct (bool_decide_reflect (agentId agent ∈ keys markers)) as [Hk | Hk];
             simpl; [left; by rewrite <- Hid | right; rewrite <- Hid; left].
        -- right. by exists a.
Qed.

Lemma get_app_l id markers extra m :
  get id markers = Some m → get id (markers ++ extra) = Some m.
Proof.
  unfold get. induction markers as [|[k m0] rest IH]; simpl; [done|].
  destruct (String.eqb k id); [done | exact IH].
Qed.

Lemma get_refresh id agent markers :
  get id (List.map (refreshEntry agent) markers)
  = (λ m, if String.eqb id (agentId agent) then refreshMarker agent m else m)
      <$> get id markers.
Proof.
  unfold get. rewrite find_key_map by apply refreshEntry_key.
  destruct (find _ markers) as [[k m]|] eqn:Hfind; [|done].
  apply find_some in Hfind as [_ Hk]. simpl in Hk. apply String.eqb_eq in Hk. subst k.
  simpl. unfold refreshEntry. simpl. by destruct (String.eqb id (agentId agent)).
Qed.

(** One agent: an existing marker keeps its listener; it keeps everything
    when the agent is another one or is not placed. *)
Lemma get_syncAgent id agent markers m :
  get id markers = Some m →
  ∃ m', get id (syncAgent agent markers) = Some m' ∧ info m' = info m ∧
        (placed agent = false ∨ agentId agent ≠ id → m' = m) ∧
        (placed agent = true → agentId agent = id → m' = refreshMarker agent m).
Proof.
  intros Hget.
  destruct (syncAgent_cases agent markers)
    as [[Hp ->] | [(Hp & Hin & ->) | (Hp & Hnot & ->)]].
  - exists m. rewrite Hp. repeat split; try done.
  - rewrite get_refresh, Hget. simpl.
    destruct (String.eqb_spec id (agentId agent)) as [-> | Hne].
    + eexists. repeat split; try done.
      all: try (intros [Hf | Hne]; [congruence | done]).
    + exists m. repeat split; try done.
      all: try (intros _ Heq; by symmetry in Heq).
  - exists m. split; [by apply get_app_l|]. repeat split; try done.
    intros _ Heq. exfalso. apply Hnot. rewrite Heq. apply get_in_keys. by rewrite Hget.
Qed.

Lemma get_syncAgent_new agent markers :
  placed agent = true → agentId agent ∉ keys markers →
  get (agentId agent) (syncAgent agent markers) = Some (createMarker agent).
Proof.
  intros Hp Hnot.
  destruct (syncAgent_cases agent markers)
    as [[Hp' _] | [(_ & Hin & _) | (_ & _ & ->)]]; [congruence | done |].
  unfold get. clear Hp. induction markers as [|[k m] rest IH]; simpl.
  - by rewrite String.eqb_refl.
  - destruct (String.eqb_spec k (agentId agent)) as [-> | _].
    + exfalso. apply Hnot. left.
    + apply IH. intros Hin. apply Hnot. by right.
Qed.

(** The marker effect never replaces the click listener of a marker: a
    marker that is in the [Map] is still there after the effect, and what its
    info window shows is still computed from the agent record with which the
    marker was created, whatever the later reports say. *)
Theorem popup_keeps_first_report agents markers id m :
  get id markers = Some m →
  ∃ m', get id (syncEffect true agents markers) = Some m' ∧ info m' = info m.
Proof.
  revert markers m. induction agents as [|agent rest IH]; intros markers m Hget.
  - by exists m.
  - rewrite syncEffect_cons.
    destruct (get_syncAgent id agent markers m Hget) as (m1 & Hget1 & Hinfo1 & _).
    destruct (IH _ _ Hget1) as (m' & Hget' & Hinfo').
    exists m'. split; [done | congruence].
Qed.

(** After the marker effect, the marker of an agent with non-zero
    coordinates shows the last such report of that agent in the list: its
    position, its colour (green when the status is ONLINE or the flag is
    set, red otherwise) and its title. *)
Theorem marker_shows_last_report agents1 agent agents2 markers :
  placed agent = true →
  Forall (λ other, placed other = false ∨ agentId other ≠ agentId agent) agents2 →
  ∃ m, get (agentId agent) (syncEffect true (agents1 ++ agent :: agents2) markers) = Some m ∧
       position m = mkLatLng (latitude agent) (longitude agent) ∧
       fillColor m = markerColor agent ∧
       title m = markerTitle agent.
Proof.
  intros Hp Hrest. rewrite syncEffect_app, syncEffect_cons.
  set (before := syncEffect true agents1 markers).
  assert (∃ m, get (agentId agent) (syncAgent agent before) = Some m ∧
               position m = mkLatLng (latitude agent) (longitude agent) ∧
               fillColor m = markerColor agent ∧ title m = markerTitle agent)
    as (m & Hget & Hfields).
  { destruct (get (agentId agent) before) as [m0|] eqn:Hbefore.
    - destruct (get_syncAgent _ agent before m0 Hbefore) as (m' & Hget' & _ & _ & Hnew).
      exists m'. split; [done|]. by rewrite (Hnew Hp eq_refl).
    - exists (createMarker agent). split; [|done].
      apply get_syncAgent_new; [done|]. intros Hin. apply get_in_keys in Hin.
      rewrite Hbefore in Hin. by destruct Hin. }
  clearbody before. revert Hget. generalize (syncAgent agent before).
  induction Hrest as [|other rest Hother _ IH]; intros current Hget.
  - by exists m.
  - rewrite syncEffect_cons.
    destruct (get_syncAgent _ other current m Hget) as (m' & Hget' & _ & Hsame & _).
    rewrite (Hsame Hother) in Hget'. by apply IH.
Qed.

Lemma refreshAll_keeps agents entry :
  (refreshAll agents entry).1 = entry.1 ∧
  info (refreshAll agents entry).2 = info entry.2.
Proof.
  unfold refreshAll. revert entry.
  induction agents as [|agent rest IH]; intros entry; [done|].
  simpl. destruct (IH (if placed agent then refreshEntry agent entry else entry))
    as [-> ->].
  destruct (placed agent); [|done]. unfold refreshEntry.
  by destruct (String.eqb _ _).
Qed.

Lemma refreshEntry_same agent (x y : string * MapMarker) :
  x.1 = y.1 → info x.2 = info y.2 → x.1 = agentId agent →
  refreshEntry agent x = refreshEntry agent y.
Proof.
  intros Hk Hi Hid. unfold refreshEntry. rewrite <- Hk, Hid, String.eqb_refl.
  unfold refreshMarker. by rewrite Hi.
Qed.

Lemma refreshEntry_other agent (x : string * MapMarker) :
  x.1 ≠ agentId agent → refreshEntry agent x = x.
Proof.
  intros Hne. unfold refreshEntry. apply String.eqb_neq in Hne. by rewrite Hne.
Qed.

(** When every placed agent has its marker, the effect only refreshes. *)
Lemma syncEffect_refreshes agents : ∀ markers,
  (∀ agent, agent ∈ agents → placed agent = true → agentId agent ∈ keys markers) →
  syncEffect true agents markers = List.map (refreshAll agents) markers.
Proof.
  induction agents as [|agent rest IH]; intros markers Hall.
  - simpl. unfold refreshAll. simpl. by rewrite List.map_id.
  - rewrite syncEffect_cons.
    destruct (syncAgent_cases agent markers)
      as [[Hp ->] | [(Hp & Hin & ->) | (Hp & Hnot & _)]].
    + rewrite IH by (intros a Ha; apply Hall; by right).
      apply List.map_ext. intros entry. unfold refreshAll. simpl. by rewrite Hp.
    + rewrite IH.
      * rewrite List.map_map. apply List.map_ext. intros entry.
        unfold refreshAll. simpl. by rewrite Hp.
      * intros a Ha Hpa. rewrite keys_refresh. apply Hall; [by right | done].
    + exfalso. apply Hnot. apply Hall; [left | done].
Qed.

Lemma syncEffect_snoc agents agent markers :
  syncEffect true (agents ++ [agent]) markers
  = syncAgent agent (syncEffect true agents markers).
Proof. by rewrite syncEffect_app. Qed.

Lemma refreshAll_snoc agents agent entry :
  refreshAll (agents ++ [agent]) entry
  = (if placed agent then refreshEntry agent (refreshAll agents entry)
     else refreshAll agents entry).
Proof. unfold refreshAll. by rewrite fold_left_app. Qed.

(** The entries that the effect leaves are not changed by a second run. *)
Lemma refreshAll_fixes agents : ∀ markers entry,
  entry ∈ syncEffect true agents markers → refreshAll agents entry = entry.
Proof.
  induction agents as [|agent rest IH] using rev_ind; intros markers entry Hin; [done|].
  rewrite syncEffect_snoc in Hin. rewrite refreshAll_snoc.
  set (before := syncEffect true rest markers) in *.
  destruct (syncAgent_cases agent before)
    as [[Hp Heq] | [(Hp & Hk & Heq) | (Hp & Hnot & Heq)]];
    rewrite Heq in Hin; rewrite Hp.
  - by apply (IH markers).
  - apply list_elem_of_In, List.in_map_iff in Hin as (entry' & <- & Hin').
    apply list_elem_of_In in Hin'.
    destruct (decide (entry'.1 = agentId agent)) as [Hid | Hne].
    + destruct (refreshAll_keeps rest (refreshEntry agent entry')) as [Hkey Hinfo].
      apply refreshEntry_same.
      * by rewrite Hkey, refreshEntry_key.
      * rewrite Hinfo. unfold refreshEntry. by rewrite Hid, String.eqb_refl.
      * by rewrite Hkey, refreshEntry_key.
    + rewrite (refreshEntry_other agent entry' Hne).
      rewrite (IH markers entry' Hin'). by apply refreshEntry_other.
  - apply elem_of_app in Hin as [Hold | Hnew].
    + rewrite (IH markers entry Hold). apply refreshEntry_other.
      intros Hid. apply Hnot. rewrite <- Hid. unfold keys.
      apply list_elem_of_fmap. by exists entry.
    + apply list_elem_of_singleton in Hnew. subst entry.
      destruct (refreshAll_keeps rest (agentId agent, createMarker agent))
        as [Hkey Hinfo].
      unfold refreshEntry. rewrite Hkey. simpl. rewrite String.eqb_refl.
      unfold refreshMarker. rewrite Hinfo. reflexivity.
Qed.

(** Running the marker effect again over the same agents changes nothing,
    whatever the markers were before and also when the list names an agent
    more than once. *)
Theorem syncEffect_idempotent (ready : bool) agents markers :
  syncEffect ready agents (syncEffect ready agents markers)
  = syncEffect ready agents markers.
Proof.
  destruct ready; [|done].
  rewrite (syncEffect_refreshes agents (syncEffect true agents markers)).
  - rewrite <- (List.map_id (syncEffect true agents markers)) at 2.
    apply List.map_ext_in. intros entry Hin. apply list_elem_of_In in Hin.
    by apply (refreshAll_fixes agents markers).
  - intros agent Hin Hp.
    destruct (syncEffect_keys true agents markers) as (_ & _ & _ & Hmem).
    apply (Hmem eq_refl). right. by exists agent.
Qed.


Lemma fitEffect_listeners (google : bool) props c m :
  map c = Some m →
  ∃ m', map (fitEffect fitView google props c) = Some m' ∧
        (boundsChangedOnce m' = boundsChangedOnce m ∨
         boundsChangedOnce m' = boundsChangedOnce m ++ [16]) ∧
        markersRef (fitEffect fitView google props c) = markersRef c.
Proof.
  intros Hmap. unfold fitEffect. rewrite Hmap.
  destruct ((length (markersRef c) =? 0)%nat || negb google).
  - exists m. rewrite Hmap. split; [done|]. split; [by left | done].
  - simpl. eexists. split; [reflexivity|]. split; [|done].
    destruct (length _ =? 1)%nat.
    + destruct (markersRef c) as [|[id marker] rest]; [by left|].
      destruct (getPosition marker); by left.
    + destruct (1 <? length _)%nat; [by right | by left].
Qed.

Lemma boundsChanged_within m :
  (boundsChangedOnce m = [] ∨ boundsChangedOnce m = [16]) →
  (getZoom m <= 16)%Q →
  getCenter (boundsChanged m) = getCenter m ∧ getZoom (boundsChanged m) = getZoom m.
Proof.
  intros Hl Hz. unfold boundsChanged. destruct Hl as [-> | ->]; simpl; [done|].
  unfold clampZoom. simpl. apply Qle_bool_iff in Hz. by rewrite Hz.
Qed.

(** When the viewport effect and the centre effect run in the same commit,
    in this order, on a ready map without pending listener, the map ends at
    the [center] prop, or at the default centre when the prop is not given,
    and at the [zoom] prop, or at 10, whatever the markers are and whatever
    the fit chose; with a zoom of at most 16 the later [bounds_changed] does
    not change this. *)
Theorem center_effect_overrides_fit (google : bool) props c m :
  map c = Some m →
  boundsChangedOnce m = [] →
  let centre := default defaultCenter (center props) in
  let level := default 10 (zoom props) in
  ∃ m1,
    map (centerEffect props (fitEffect fitView google props c)) = Some m1 ∧
    getCenter m1 = centre ∧
    (getZoom m1 == level)%Q ∧
    ((level <= 16)%Q →
       getCenter (boundsChanged m1) = centre ∧
       (getZoom (boundsChanged m1) == level)%Q).
Proof.
  intros Hmap Hnone. cbv zeta.
  destruct (fitEffect_listeners google props c m Hmap) as (m' & Hfit & Hl & _).
  rewrite Hnone in Hl. simpl in Hl.
  unfold centerEffect. rewrite Hfit. simpl map.
  set (level := default 10 (zoom props)).
  set (centre := default defaultCenter (center props)).
  simpl getZoom. destruct (Qeq_bool level (getZoom m')) eqn:Hz.
  - apply Qeq_bool_iff in Hz.
    eexists. split; [reflexivity|]. split; [reflexivity|]. split; [by symmetry|].
    intros Hle.
    destruct (boundsChanged_within (setCenter centre m')) as [Hc Hzz].
    + exact Hl.
    + simpl. by rewrite <- Hz.
    + rewrite Hc, Hzz. simpl. split; [reflexivity | by symmetry].
  - eexists. split; [reflexivity|]. split; [reflexivity|]. split; [reflexivity|].
    intros Hle.
    destruct (boundsChanged_within (setZoom level (setCenter centre m'))) as [Hc Hzz].
    + exact Hl.
    + exact Hle.
    + rewrite Hc, Hzz. simpl. split; reflexivity.
Qed.


Lemma positions_toViewport markers :
  omap (λ entry : string * Marker, getPosition entry.2) (toViewport markers)
  = (λ entry, position entry.2) <$> markers.
Proof.
  unfold toViewport. induction markers as [|entry rest IH]; [done|].
  cbn [fmap list_fmap omap list_omap]. simpl. f_equal. exact IH.
Qed.

(** Every marker that the marker effect keeps has a position, so the
    viewport effect on a ready map does nothing without markers, centres on
    the marker at zoom 15 when there is one, and fits the bounds of the
    positions of all markers, in insertion order, when there are several. *)
Theorem fit_counts_every_marker props markers m (initial : bool) :
  let c := mkComponent (Some m) (toViewport markers) initial in
  (markers = [] → fitEffect fitView true props c = c) ∧
  (∀ id marker, markers = [(id, marker)] →
     map (fitEffect fitView true props c)
     = Some (setZoom 15 (setCenter (position marker) m))) ∧
  ((1 < length markers)%nat →
     map (fitEffect fitView true props c)
     = Some (addListenerOnce 16
               (fitBounds fitView ((λ entry, position entry.2) <$> markers) m))).
Proof.
  cbv zeta. split; [|split].
  - intros ->. reflexivity.
  - intros id marker ->. reflexivity.
  - intros Hmany.
    destruct (fitEffect_many fitView props
                (mkComponent (Some m) (toViewport markers) initial) m eq_refl)
      as [Hfit _].
    + simpl markersRef. rewrite positions_toViewport. by rewrite length_fmap.
    + simpl markersRef in Hfit. by rewrite positions_toViewport in Hfit.
Qed.

(** The markers of the [Map] are never removed and never doubled: the
    effect keeps the keys it finds, in their order, and appends new ones;
    pairwise distinct keys stay pairwise distinct; without a ready map
    nothing changes; with one, the keys afterwards are the keys before and
    the identifiers of the agents whose latitude and longitude are both
    non-zero (an agent reported at latitude 0 or longitude 0 gets no
    marker). *)
Theorem markers_are_never_removed (ready : bool) agents markers :
  (∃ added, keys (syncEffect ready agents markers) = keys markers ++ added) ∧
  (NoDup (keys markers) → NoDup (keys (syncEffect ready agents markers))) ∧
  (ready = false → syncEffect ready agents markers = markers) ∧
  (ready = true → ∀ id,
     id ∈ keys (syncEffect ready agents markers) ↔
     id ∈ keys markers ∨ ∃ agent, agent ∈ agents ∧ placed agent = true ∧ agentId agent = id).
Proof. apply syncEffect_keys. Qed.

End MarkerFacts.

Lemma markers_are_never_removed_witness :
  NoDup (MapEffects.keys
           (MapEffects.syncEffect true
              [Scenarios.markerA1; Scenarios.markerEquator; Scenarios.markerA2;
               Scenarios.markerA1later] [])) ∧
  "A3" ∉ MapEffects.keys
           (MapEffects.syncEffect true
              [Scenarios.markerA1; Scenarios.markerEquator; Scenarios.markerA2;
               Scenarios.markerA1later] []).
Proof.
  destruct (markers_are_never_removed true
              [Scenarios.markerA1; Scenarios.markerEquator; Scenarios.markerA2;
               Scenarios.markerA1later] []) as (_ & Hnodup & _ & Hkeys).
  split; [apply Hnodup; constructor|].
  intros Hin. apply (Hkeys eq_refl) in Hin as [Hin | (agent & Hin & Hplaced & Hid)].
  - by apply elem_of_nil in Hin.
  - repeat (apply elem_of_cons in Hin as [-> | Hin]; [discriminate|]).
    by apply elem_of_nil in Hin.
Defined.

Lemma popup_keeps_first_report_witness :
  ∃ m, MapEffects.get "A1"
         (MapEffects.syncEffect true [Scenarios.markerA1later]
            (MapEffects.syncEffect true [Scenarios.markerA1] [])) = Some m ∧
       MapEffects.info m = Scenarios.markerA1.
Proof.
  destruct (popup_keeps_first_report [Scenarios.markerA1later]
              (MapEffects.syncEffect true [Scenarios.markerA1] []) "A1"
              (MapEffects.createMarker Scenarios.markerA1) eq_refl) as (m & Hget & Hinfo).
  exists m. split; [exact Hget | exact Hinfo].
Defined.

Lemma marker_shows_last_report_witness :
  ∃ m, MapEffects.get "A1"
         (MapEffects.syncEffect true
            ([Scenarios.markerA1] ++ Scenarios.markerA1later :: [Scenarios.markerA2]) [])
       = Some m ∧
       MapEffects.fillColor m = "#10B981".
Proof.
  destruct (marker_shows_last_report [Scenarios.markerA1] Scenarios.markerA1later
              [Scenarios.markerA2] []) as (m & Hget & _ & Hcolor & _).
  - reflexivity.
  - apply Forall_singleton. right. discriminate.
  - exists m. split; [exact Hget | exact Hcolor].
Defined.

Lemma center_effect_overrides_fit_witness :
  ∃ m1,
    GoogleMap.map
      (MapEffects.centerEffect Scenarios.overviewProps
         (GoogleMap.fitEffect (λ _, (Samples.focusA1, 18)) true Scenarios.overviewProps
            Samples.twoMarkers)) = Some m1 ∧
    GoogleMap.getCenter m1 = MapEffects.defaultCenter.
Proof.
  destruct (center_effect_overrides_fit (λ _, (Samples.focusA1, 18)) true
              Scenarios.overviewProps Samples.twoMarkers Samples.delhi eq_refl eq_refl)
    as (m1 & Hmap & Hcentre & _).
  exists m1. split; [exact Hmap | exact Hcentre].
Defined.

Lemma fit_counts_every_marker_witness :
  GoogleMap.map
    (GoogleMap.fitEffect (λ _, (Samples.focusA1, 18)) true Scenarios.overviewProps
       (GoogleMap.mkComponent (Some Samples.delhi)
          (MapEffects.toViewport
             (MapEffects.syncEffect true [Scenarios.markerA1; Scenarios.markerA2] []))
          true))
  = Some (GoogleMap.addListenerOnce 16
            (GoogleMap.fitBounds (λ _, (Samples.focusA1, 18))
               [GoogleMap.mkLatLng (2861 # 100) (7720 # 100);
                GoogleMap.mkLatLng (2870 # 100) (7710 # 100)] Samples.delhi)).
Proof.
  destruct (fit_counts_every_marker (λ _, (Samples.focusA1, 18)) Scenarios.overviewProps
              (MapEffects.syncEffect true [Scenarios.markerA1; Scenarios.markerA2] [])
              Samples.delhi true) as (_ & _ & Hmany).
  apply Hmany. vm_compute. lia.
Defined.
